(** * Projection and exposure-risk engine: a shallow embedding

    The development follows the TypeScript sources:
    - [types.ts]: the [Investment] and [MarketRates] records;
    - [App.tsx]: [fgcExposure], the global-limit card ([totalFGC],
      [isGlobalOver], [isGlobalWarning]), [handleMarketRatesChange], the
      dashboard figures, the chart, the sorted table and the handlers that
      add, update and delete a position;
    - [services/investmentService.ts]: [fetchMarketRates], the row
      conversions and [fetchInvestments];
    - [components/InvestmentForm.tsx]: [handleSubmit].

    Numbers come in two models.  Whatever is stated about a sum (the
    global total, the totals of the institutions, the dashboard totals) is
    stated in [Binary64], over the primitive floats: sums round, depend on
    the order of their terms and may overflow or be [NaN], as in the
    language.  The order of the report, the sorted table, the handlers and
    the conversions are stated over [Num], where a finite number is an exact
    rational and [NaN] a value of its own; no property stated there says
    what a sum is equal to (the lemmas on exact sums only serve the order of
    the report and the monotonicity of the level, which rounding keeps).

    In [Binary64] the built-ins [trim] and [toUpperCase] are parameters, so
    that what is proved holds for the Unicode functions of the language.  In
    the other part of the file strings are sequences of ASCII code units:
    [trim] removes the ASCII white space and line terminators and
    [toUpperCase] maps [a-z] to [A-Z]. *)

From Corelib Require Import PrimFloat.
From Corelib Require FloatOps FloatAxioms SpecFloat.
From Stdlib Require Import List String Ascii Bool NArith ZArith QArith Lia.
From Stdlib Require Import Reals Psatz.
From Stdlib Require Import Sorting.Sorted Sorting.Permutation.
Import ListNotations.

Local Open Scope Q_scope.

Set Warnings "-inexact-float".

(** ** Numbers *)

Module Num.

Inductive number : Type :=
| Fin (q : Q)
| NaN.

(** ToBoolean on a number: [0] and [NaN] are falsy. *)
Definition truthy (x : number) : bool :=
  match x with
  | Fin q => negb (Qeq_bool q 0)
  | NaN => false
  end.

(** [v || 0], where a missing property (undefined) is [None]. *)
Definition orZero (v : option number) : number :=
  match v with
  | Some x => if truthy x then x else Fin 0
  | None => Fin 0
  end.

Definition add (x y : number) : number :=
  match x, y with
  | Fin a, Fin b => Fin (a + b)
  | _, _ => NaN
  end.

Definition sub (x y : number) : number :=
  match x, y with
  | Fin a, Fin b => Fin (a - b)
  | _, _ => NaN
  end.

Definition mul (x y : number) : number :=
  match x, y with
  | Fin a, Fin b => Fin (a * b)
  | _, _ => NaN
  end.

(** [x > y]; any comparison with [NaN] is false. *)
Definition gt (x y : number) : bool :=
  match x, y with
  | Fin a, Fin b =>
      match a ?= b with
      | Gt => true
      | _ => false
      end
  | _, _ => false
  end.

(** The finite value carried by a number, [0] for [NaN]: what [x || 0]
    contributes to a sum. *)
Definition value (x : number) : Q :=
  match x with
  | Fin q => q
  | NaN => 0
  end.

End Num.
Import Num.

(** ** Strings *)

Module Str.

Definition code (c : ascii) : N := N_of_ascii c.

(** White space and line terminators below U+0080: TAB, LF, VT, FF, CR and
    SPACE. *)
Definition isWhite (c : ascii) : bool :=
  let n := code c in
  ((9 <=? n) && (n <=? 13) || (n =? 32))%N.

Definition isLower (c : ascii) : bool :=
  let n := code c in ((97 <=? n) && (n <=? 122))%N.

Definition isUpper (c : ascii) : bool :=
  let n := code c in ((65 <=? n) && (n <=? 90))%N.

Definition upperChar (c : ascii) : ascii :=
  if isLower c then ascii_of_N (code c - 32) else c.

Fixpoint trimStart (s : string) : string :=
  match s with
  | EmptyString => EmptyString
  | String c s' => if isWhite c then trimStart s' else s
  end.

Fixpoint trimEnd (s : string) : string :=
  match s with
  | EmptyString => EmptyString
  | String c s' =>
      match trimEnd s' with
      | EmptyString => if isWhite c then EmptyString else String c EmptyString
      | t => String c t
      end
  end.

Definition trim (s : string) : string := trimEnd (trimStart s).

Fixpoint toUpperCase (s : string) : string :=
  match s with
  | EmptyString => EmptyString
  | String c s' => String (upperChar c) (toUpperCase s')
  end.

End Str.
Import Str.

(** ** Plain objects used as dictionaries

    [const banks: Record<string, number> = {}] is an ordinary object.  Its own
    string keys are kept in creation order; [Object.entries] lists the keys
    that are array indices first, in ascending numeric order, and then the
    others in creation order. *)

Module Obj.

Definition t : Type := list (string * number).

Definition empty : t := [].

(** [o[k]]: [None] stands for undefined. *)
Fixpoint get (o : t) (k : string) : option number :=
  match o with
  | [] => None
  | (k', v) :: o' => if String.eqb k' k then Some v else get o' k
  end.

(** [o[k] = v]: an existing key keeps its place, a new one goes last. *)
Fixpoint set (o : t) (k : string) (v : number) : t :=
  match o with
  | [] => [(k, v)]
  | (k', v') :: o' =>
      if String.eqb k' k then (k', v) :: o' else (k', v') :: set o' k v
  end.

Definition isDigit (c : ascii) : bool :=
  let n := code c in ((48 <=? n) && (n <=? 57))%N.

Fixpoint digitsValue (acc : N) (s : string) : option N :=
  match s with
  | EmptyString => Some acc
  | String c s' =>
      if isDigit c then digitsValue (acc * 10 + (code c - 48))%N s' else None
  end.

(** A key is an array index when it is the canonical decimal form of an
    integer between [0] and [2^32 - 2]. *)
Definition arrayIndex (k : string) : option N :=
  match k with
  | EmptyString => None
  | String c rest =>
      if (code c =? 48)%N && negb (String.eqb rest EmptyString) then None
      else
        match digitsValue 0 k with
        | Some n => if (n <=? 4294967294)%N then Some n else None
        | None => None
        end
  end.

Definition isIndex (e : string * number) : bool :=
  match arrayIndex (fst e) with Some _ => true | None => false end.

Definition indexOf (e : string * number) : N :=
  match arrayIndex (fst e) with Some n => n | None => 0%N end.

Fixpoint insertIndex (e : string * number) (l : t) : t :=
  match l with
  | [] => [e]
  | e' :: l' =>
      if (indexOf e <=? indexOf e')%N then e :: l else e' :: insertIndex e l'
  end.

Definition sortIndices (l : t) : t := fold_right insertIndex [] l.

Definition entries (o : t) : list (string * number) :=
  sortIndices (filter isIndex o) ++ filter (fun e => negb (isIndex e)) o.

End Obj.

(** ** [Array.prototype.sort]

    The sort is stable.  The comparator's result [v] decides: [v < 0] keeps
    the first argument before the second, [v > 0] puts it after, and [0] or
    [NaN] leaves the two in their original order. *)

Module Arr.

Section Sort.
Context {A : Type} (comparefn : A -> A -> number).

Definition sign (v : number) : comparison :=
  match v with
  | Fin q => q ?= 0
  | NaN => Eq
  end.

Fixpoint insert (x : A) (l : list A) : list A :=
  match l with
  | [] => [x]
  | y :: l' =>
      match sign (comparefn x y) with
      | Gt => y :: insert x l'
      | _ => x :: l
      end
  end.

Definition sort (l : list A) : list A := fold_right insert [] l.
End Sort.

End Arr.

(** ** [types.ts] *)

Inductive InvestmentTitle : Type := CDB | LCI | LTN | NTNB.

Inductive InvestmentType : Type := CDI | IPCA | PREFIXADO.

Record Investment : Type := mkInvestment {
  id : string;
  broker : string;
  bank : string;
  title : InvestmentTitle;
  type : InvestmentType;
  amount : number;
  quantity : number;
  interestRate : number;
  incomeTax : number;
  startDate : string;
  dueDate : string;
  futureValue : number;
  netFutureValue : number;
  createdAt : number
}.

Record MarketRates : Type := mkMarketRates {
  cdi : number;
  ipca : number
}.

(** ** [App.tsx]: exposure per institution *)

Definition bankName (inv : Investment) : string :=
  toUpperCase (trim (bank inv)).

(** One step of the [forEach] in [fgcExposure]. *)
Definition addExposure (banks : Obj.t) (inv : Investment) : Obj.t :=
  Obj.set banks (bankName inv)
    (add (orZero (Obj.get banks (bankName inv)))
         (orZero (Some (futureValue inv)))).

Definition exposureByBank (investments : list Investment) : Obj.t :=
  fold_left addExposure investments Obj.empty.

Definition byTotalDesc (a b : string * number) : number :=
  sub (snd b) (snd a).

Definition fgcExposure (investments : list Investment)
  : list (string * number) :=
  Arr.sort byTotalDesc (Obj.entries (exposureByBank investments)).

(** ** [App.tsx]: the global limit card *)

Definition totalFGC (investments : list Investment) : number :=
  fold_left (fun acc curr => add acc (orZero (Some (futureValue curr))))
            investments (Fin 0).

Definition FGC_GLOBAL_LIMIT : number := Fin 1000000.

Definition isGlobalOver (totalFGC : number) : bool :=
  gt totalFGC FGC_GLOBAL_LIMIT.

Definition isGlobalWarning (totalFGC : number) : bool :=
  gt totalFGC (mul FGC_GLOBAL_LIMIT (Fin 0.8)) && negb (isGlobalOver totalFGC).

(** [FGC_GLOBAL_LIMIT * 0.8] as the engine computes it, in binary64. *)
Definition warningThresholdBinary64 : PrimFloat.float :=
  PrimFloat.mul 1000000%float 0x1.999999999999ap-1%float.

Inductive RiskLevel : Type := Safe | Warning | Over.

(** The three-way branch that follows the two flags in the card
    ([if (isGlobalOver) ... else if (isGlobalWarning) ...]). *)
Definition riskLevel (totalFGC : number) : RiskLevel :=
  if isGlobalOver totalFGC then Over
  else if isGlobalWarning totalFGC then Warning
  else Safe.

Definition globalRisk (investments : list Investment) : RiskLevel :=
  riskLevel (totalFGC investments).

(** ** [App.tsx]: recomputing every position when the market rates change

    [calculateFutureValue] lives in [utils/calculations]; the handler only
    relies on its signature, so it is a parameter here. *)

Record CalculationResult : Type := mkResult {
  gross : number;
  net : number
}.

Record AppState : Type := mkState {
  investments : list Investment;
  marketRates : MarketRates;
  isRecalculating : bool
}.

Section MarketRatesChange.

Variable calculateFutureValue : Investment -> MarketRates -> CalculationResult.

(** [{ ...inv, futureValue: gross, netFutureValue: net }] *)
Definition recalculated (newRates : MarketRates) (inv : Investment)
  : Investment :=
  let r := calculateFutureValue inv newRates in
  {| id := id inv;
     broker := broker inv;
     bank := bank inv;
     title := title inv;
     type := type inv;
     amount := amount inv;
     quantity := quantity inv;
     interestRate := interestRate inv;
     incomeTax := incomeTax inv;
     startDate := startDate inv;
     dueDate := dueDate inv;
     futureValue := gross r;
     netFutureValue := net r;
     createdAt := createdAt inv |}.

Definition updatedInvestments (newRates : MarketRates)
           (invs : list Investment) : list Investment :=
  map (recalculated newRates) invs.

(** The local state once the handler has run: the two writes to the
    store ([saveMarketRates], [updateInvestmentValues]) do not feed back
    into it. *)
Definition handleMarketRatesChange (newRates : MarketRates) (st : AppState)
  : AppState :=
  {| investments := updatedInvestments newRates (investments st);
     marketRates := newRates;
     isRecalculating := false |}.

End MarketRatesChange.

(** Everything of a position but the two projected values. *)
Definition terms (inv : Investment) :=
  (id inv, broker inv, bank inv, title inv, type inv, amount inv,
   quantity inv, interestRate inv, incomeTax inv, startDate inv, dueDate inv,
   createdAt inv).

(** ** [services/investmentService.ts]: reading the market rates *)

Module Service.

(** The values a column of a fetched row can hold. *)
Inductive JsValue : Type :=
| JUndefined
| JNull
| JBool (b : bool)
| JNumber (n : number)
| JString (s : string).

Record Row : Type := mkRow {
  row_cdi : JsValue;
  row_ipca : JsValue
}.

(** What [await supabase.from(...).select('*').limit(1).single()] resolves
    to: the client reports a failure in [error], it does not reject. *)
Record Response : Type := mkResponse {
  data : option Row;
  error : option string
}.

Inductive Promise (A : Type) : Type :=
| Resolved (a : A)
| Rejected (reason : string).
Arguments Resolved {A} a.
Arguments Rejected {A} reason.

Definition isSet {A : Type} (v : option A) : bool :=
  match v with Some _ => true | None => false end.

Definition defaultRates : MarketRates :=
  {| cdi := Fin 11.25; ipca := Fin 4.5 |}.

Section Coercion.

(** The StringToNumber operation of the language, applied by [Number]
    to a string. *)
Variable StringToNumber : string -> number.

Definition Number (v : JsValue) : number :=
  match v with
  | JUndefined => NaN
  | JNull => Fin 0
  | JBool true => Fin 1
  | JBool false => Fin 0
  | JNumber n => n
  | JString s => StringToNumber s
  end.

Definition fetchMarketRates (resp : Response) : Promise MarketRates :=
  if isSet (error resp) || negb (isSet (data resp)) then
    Resolved defaultRates
  else
    match data resp with
    | Some row =>
        Resolved {| cdi := Number (row_cdi row);
                    ipca := Number (row_ipca row) |}
    | None => Rejected "TypeError"
    end.

End Coercion.

End Service.

(** ** The projection operation

    [utils/calculations] is not among the sources at hand; the projection is
    written here from sections 4.1 and 4.2 of the specification, over the
    reals, with dates as day numbers. *)

Module Projection.

Local Open Scope R_scope.

(** Modelled from the spec: the regimes of section 3 ([utils/calculations],
    which defines [calculateFutureValue], is missing). *)
Inductive IndexRegime : Type :=
| PostFixedToReferenceIndex
| InflationLinked
| FixedNominal.

(** Modelled from the spec: the Position of section 3, dates as day
    numbers ([utils/calculations] is missing). *)
Record Position : Type := mkPosition {
  principal : R;
  indexRegime : IndexRegime;
  rateParameter : R;
  taxRate : R;
  startDate : Z;
  dueDate : Z;
  institution : string
}.

(** Modelled from the spec: the MarketRates snapshot of section 3
    ([utils/calculations] is missing). *)
Record Rates : Type := mkRates {
  referenceIndexAnnualRate : R;
  inflationAnnualRate : R
}.

(** Modelled from the spec: the CalculationResult of section 3
    ([utils/calculations] is missing). *)
Record Result : Type := mkResult {
  gross : R;
  net : R
}.

(** Modelled from the spec: the error taxonomy of section 7
    ([utils/calculations] is missing). *)
Inductive Error : Type := InvalidRegime | InvalidPeriod | InvalidPrincipal.

(** Modelled from the spec: [CalculationResult | Error], the result type of
    [project] in section 6 ([utils/calculations] is missing). *)
Inductive Outcome : Type :=
| Ok (r : Result)
| Failed (e : Error).

(** Modelled from the spec: the RateResolver of section 4.1 (the source of
    [calculateFutureValue] is missing).  The regime is one of the three
    variants by typing, so [InvalidRegime] cannot arise. *)
Definition effectiveAnnualRate (p : Position) (m : Rates) : R :=
  match indexRegime p with
  | PostFixedToReferenceIndex =>
      (referenceIndexAnnualRate m / 100) * (rateParameter p / 100)
  | InflationLinked =>
      (1 + inflationAnnualRate m / 100) * (1 + rateParameter p / 100) - 1
  | FixedNominal => rateParameter p / 100
  end.

(** Modelled from the spec: step 1 of section 4.2, calendar days over 365
    ([utils/calculations] is missing). *)
Definition periodYears (p : Position) : R :=
  IZR (dueDate p - startDate p) / 365.

(** Modelled from the spec: the real power of step 2 of section 4.2
    ([utils/calculations] is missing).  A base of 0 has the power 0 (1 for
    the exponent 0); below 0 the power has no real value and [Rpower]'s is
    taken. *)
Definition power (x y : R) : R :=
  if Req_EM_T x 0 then (if Req_EM_T y 0 then 1 else 0) else Rpower x y.

(** Modelled from the spec: step 2 of section 4.2, compound growth with a
    real exponent ([utils/calculations] is missing). *)
Definition grossValue (p : Position) (m : Rates) : R :=
  principal p * power (1 + effectiveAnnualRate p m) (periodYears p).

(** Modelled from the spec: step 3 of section 4.2 ([utils/calculations] is
    missing). *)
Definition gain (p : Position) (m : Rates) : R :=
  grossValue p m - principal p.

(** Modelled from the spec: step 4 of section 4.2, tax on a gain only
    ([utils/calculations] is missing). *)
Definition netValue (p : Position) (m : Rates) : R :=
  if Rle_dec 0 (gain p m)
  then principal p + gain p m * (1 - taxRate p / 100)
  else grossValue p m.

(** Modelled from the spec: step 5 of section 4.2, two decimal places,
    halves rounded up ([utils/calculations] is missing). *)
Definition round2 (x : R) : R := IZR (Int_part (x * 100 + / 2)) / 100.

(** Modelled from the spec: the operation [project] of section 6, which
    stands for the missing [calculateFutureValue], with the failure
    semantics of section 4.2.  The section does not say which failure comes
    first when both apply; the period is checked first here, and nothing
    proved below depends on that order. *)
Definition project (p : Position) (m : Rates) : Outcome :=
  if (dueDate p <=? startDate p)%Z then Failed InvalidPeriod
  else if Rle_dec (principal p) 0 then Failed InvalidPrincipal
  else Ok {| gross := round2 (grossValue p m);
             net := round2 (netValue p m) |}.

End Projection.

(** ** Properties the aggregation is checked against *)

(** "Differ only in letter case": the same length, and position by position
    the same character or the same letter in the other case. *)
Definition swapCase (c : ascii) : ascii :=
  if isLower c then ascii_of_N (code c - 32)
  else if isUpper c then ascii_of_N (code c + 32)
  else c.

Inductive sameLetters : string -> string -> Prop :=
| sameLetters_nil : sameLetters EmptyString EmptyString
| sameLetters_cons c d s t :
    d = c \/ d = swapCase c ->
    sameLetters s t ->
    sameLetters (String c s) (String d t).

Fixpoint allWhite (s : string) : bool :=
  match s with
  | EmptyString => true
  | String c s' => isWhite c && allWhite s'
  end.

(** "Differ only in letter case and/or surrounding whitespace". *)
Definition sameInstitution (a b : string) : Prop :=
  exists l1 r1 l2 r2 c1 c2,
    a = (l1 ++ c1 ++ r1)%string /\ b = (l2 ++ c2 ++ r2)%string
    /\ allWhite l1 = true /\ allWhite r1 = true
    /\ allWhite l2 = true /\ allWhite r2 = true
    /\ sameLetters c1 c2.

(** Sum of the gross projected values of a collection. *)
Definition sumGross (invs : list Investment) : Q :=
  fold_right (fun inv acc => value (futureValue inv) + acc) 0 invs.

Definition atBank (k : string) (inv : Investment) : bool :=
  String.eqb (bankName inv) k.

Definition total (e : string * number) : Q := value (snd e).

(** Descending by total. *)
Definition totalDesc (a b : string * number) : Prop := total b <= total a.


Definition hasTotal (q : Q) (e : string * number) : bool :=
  Qeq_bool (total e) q.

(** The names of a list in order of first occurrence. *)
Definition noteName (seen : list string) (k : string) : list string :=
  if existsb (fun k' => String.eqb k' k) seen then seen else seen ++ [k].

Definition firstOccurrences (names : list string) : list string :=
  fold_left noteName names [].

Definition pos (b : string) (fv : Q) : Investment :=
  mkInvestment "" "" b CDB CDI (Fin 0) (Fin 1) (Fin 100) (Fin 15) "" ""
               (Fin fv) (Fin fv) (Fin 0).

(** A reported pair whose total is a finite number. *)
Definition finite (e : string * number) : Prop := exists q, snd e = Fin q.

(** What a bucket holds, read as the code reads it ([banks[k] || 0]). *)
Definition bucket (o : Obj.t) (k : string) : Q := value (orZero (Obj.get o k)).

(** ** Positions used as examples for the projection *)

Module ProjectionExamples.

Import Projection.
Local Open Scope R_scope.

(** A position that loses half its value in a year. *)
Definition halved : Position :=
  {| principal := 1000;
     indexRegime := FixedNominal;
     rateParameter := -50;
     taxRate := 15;
     startDate := 0;
     dueDate := 365;
     institution := "Banco X" |}.

Definition anyRates : Rates :=
  {| referenceIndexAnnualRate := 12; inflationAnnualRate := 4 |}.

End ProjectionExamples.

(** ** More of the number operations the sources use *)

(** [x < y]. *)
Definition lt (x y : number) : bool := gt y x.

(** [toLowerCase] on ASCII code units: [A-Z] to [a-z]; strings compare by
    code units ([String.ltb]). *)
Definition lowerChar (c : ascii) : ascii :=
  if isUpper c then ascii_of_N (code c + 32) else c.

Fixpoint toLowerCase (s : string) : string :=
  match s with
  | EmptyString => EmptyString
  | String c s' => String (lowerChar c) (toLowerCase s')
  end.

(** ** [App.tsx]: the dashboard figures, the chart and the sorted table *)

(** The string value of the [InvestmentType] enum. *)
Definition typeName (t : InvestmentType) : string :=
  match t with
  | CDI => "CDI"
  | IPCA => "IPCA+"
  | PREFIXADO => "Prefixado"
  end.

Definition totalInvested (investments : list Investment) : number :=
  fold_left (fun acc curr => add acc (amount curr)) investments (Fin 0).

(** One step of the [forEach] in [chartData]: the amount is added as it
    is, without [|| 0]. *)
Definition addAmount (byType : Obj.t) (inv : Investment) : Obj.t :=
  Obj.set byType (typeName (type inv))
    (add (orZero (Obj.get byType (typeName (type inv)))) (amount inv)).

(** The [{ name, value }] slices, as pairs. *)
Definition chartData (investments : list Investment)
  : list (string * number) :=
  Obj.entries (fold_left addAmount investments Obj.empty).

Inductive SortField : Type :=
| ByBank
| ByAmount
| ByStartDate
| ByDueDate
| ByNetFutureValue.

Inductive SortDirection : Type := Asc | Desc.

(** What the comparator of the table returns once it knows whether
    [aValue < bValue] and whether [aValue > bValue]. *)
Definition ordering (dir : SortDirection) (less greater : bool) : number :=
  if less then match dir with Asc => Fin (-1) | Desc => Fin 1 end
  else if greater then match dir with Asc => Fin 1 | Desc => Fin (-1) end
  else Fin 0.





Section Dates.

(** [new Date(s).getTime()]: milliseconds, [NaN] for an invalid date. *)
Variable dateTime : string -> number.

Definition byDueDate (a b : Investment) : number :=
  sub (dateTime (dueDate a)) (dateTime (dueDate b)).

Definition nextDueDate (investments : list Investment) : option string :=
  if (0 <? List.length investments)%nat then
    match Arr.sort byDueDate investments with
    | first :: _ => Some (dueDate first)
    | [] => None
    end
  else None.

(** The comparator of [sortedInvestments]: strings are compared in lower
    case, the two date columns by their time. *)
Definition compareBy (field : SortField) (dir : SortDirection)
           (a b : Investment) : number :=
  match field with
  | ByBank =>
      let aValue := toLowerCase (bank a) in
      let bValue := toLowerCase (bank b) in
      ordering dir (String.ltb aValue bValue) (String.ltb bValue aValue)
  | ByAmount =>
      ordering dir (lt (amount a) (amount b)) (gt (amount a) (amount b))
  | ByStartDate =>
      let aValue := dateTime (toLowerCase (startDate a)) in
      let bValue := dateTime (toLowerCase (startDate b)) in
      ordering dir (lt aValue bValue) (gt aValue bValue)
  | ByDueDate =>
      let aValue := dateTime (toLowerCase (dueDate a)) in
      let bValue := dateTime (toLowerCase (dueDate b)) in
      ordering dir (lt aValue bValue) (gt aValue bValue)
  | ByNetFutureValue =>
      ordering dir (lt (netFutureValue a) (netFutureValue b))
               (gt (netFutureValue a) (netFutureValue b))
  end.

Definition sortedInvestments (field : SortField) (dir : SortDirection)
           (investments : list Investment) : list Investment :=
  Arr.sort (compareBy field dir) investments.

(** The number a position is ranked by in a numeric column (the bank
    column ranks by name and has none). *)
Definition rank (field : SortField) (inv : Investment) : number :=
  match field with
  | ByBank => NaN
  | ByAmount => amount inv
  | ByStartDate => dateTime (toLowerCase (startDate inv))
  | ByDueDate => dateTime (toLowerCase (dueDate inv))
  | ByNetFutureValue => netFutureValue inv
  end.

End Dates.

(** ** [App.tsx]: adding, updating and deleting a position *)

Module Handlers.

Inductive Tab : Type := Dashboard | Investments | Fgc | Settings.

Record View : Type := mkView {
  items : list Investment;
  editingInvestment : option Investment;
  isSaving : bool;
  activeTab : Tab
}.

(** [handleAddInvestment], [saved] being what [addInvestment] resolved to
    ([None] for null). *)
Definition handleAddInvestment (saved : option Investment) (v : View) : View :=
  {| items := match saved with
              | Some s => items v ++ [s]
              | None => items v
              end;
     editingInvestment := editingInvestment v;
     isSaving := false;
     activeTab := Investments |}.

Definition replaceById (updated : Investment) (i : Investment) : Investment :=
  if String.eqb (id i) (id updated) then updated else i.

(** [handleUpdateInvestment]: [inv] is [None] when the form cancels the
    edition, [updated] is what [updateInvestment] resolved to. *)
Definition handleUpdateInvestment (inv : option Investment)
           (updated : option Investment) (v : View) : View :=
  match inv with
  | None =>
      {| items := items v;
         editingInvestment := None;
         isSaving := isSaving v;
         activeTab := activeTab v |}
  | Some _ =>
      match updated with
      | Some u =>
          {| items := map (replaceById u) (items v);
             editingInvestment := None;
             isSaving := false;
             activeTab := activeTab v |}
      | None =>
          {| items := items v;
             editingInvestment := editingInvestment v;
             isSaving := false;
             activeTab := activeTab v |}
      end
  end.

(** [handleDeleteInvestment]: [confirmed] is the answer to [confirm(...)],
    [success] what [deleteInvestment] resolved to. *)
Definition handleDeleteInvestment (confirmed success : bool) (k : string)
           (v : View) : View :=
  if confirmed then
    if success then
      {| items := filter (fun i => negb (String.eqb (id i) k)) (items v);
         editingInvestment := editingInvestment v;
         isSaving := isSaving v;
         activeTab := activeTab v |}
    else v
  else v.

End Handlers.

(** ** [services/investmentService.ts]: rows and positions *)

Module Persistence.

Import Service.

(** A row of the [investments] table.  The columns that [toCamelCase]
    passes through [Number] hold any value; the others are read as they
    are. *)
Record InvestmentRow : Type := mkInvestmentRow {
  row_id : string;
  row_broker : string;
  row_bank : string;
  row_title : InvestmentTitle;
  row_type : InvestmentType;
  row_amount : JsValue;
  row_quantity : number;
  row_interest_rate : JsValue;
  row_income_tax : JsValue;
  row_start_date : string;
  row_due_date : string;
  row_future_value : JsValue;
  row_net_future_value : JsValue;
  row_created_at : string
}.

Record RowsResponse : Type := mkRowsResponse {
  rows : option (list InvestmentRow);
  rowsError : option string
}.

Record RowResponse : Type := mkRowResponse {
  row : option InvestmentRow;
  rowError : option string
}.

Section Conversions.

Variable StringToNumber : string -> number.

(** [new Date(t).toISOString()]: [None] when the time is not a valid date
    and the call throws a RangeError. *)
Variable toISOString : number -> option string.

(** [new Date(s).getTime()]. *)
Variable dateTime : string -> number.

Definition toSnakeCase (investment : Investment) : option InvestmentRow :=
  match toISOString (createdAt investment) with
  | Some iso =>
      Some {| row_id := id investment;
              row_broker := broker investment;
              row_bank := bank investment;
              row_title := title investment;
              row_type := type investment;
              row_amount := JNumber (amount investment);
              row_quantity := quantity investment;
              row_interest_rate := JNumber (interestRate investment);
              row_income_tax := JNumber (incomeTax investment);
              row_start_date := startDate investment;
              row_due_date := dueDate investment;
              row_future_value := JNumber (futureValue investment);
              row_net_future_value := JNumber (netFutureValue investment);
              row_created_at := iso |}
  | None => None
  end.

Definition toCamelCase (r : InvestmentRow) : Investment :=
  {| id := row_id r;
     broker := row_broker r;
     bank := row_bank r;
     title := row_title r;
     type := row_type r;
     amount := Number StringToNumber (row_amount r);
     quantity := row_quantity r;
     interestRate := Number StringToNumber (row_interest_rate r);
     incomeTax := Number StringToNumber (row_income_tax r);
     startDate := row_start_date r;
     dueDate := row_due_date r;
     futureValue := Number StringToNumber (row_future_value r);
     netFutureValue := Number StringToNumber (row_net_future_value r);
     createdAt := dateTime (row_created_at r) |}.

(** [fetchInvestments], on what the query resolved to. *)
Definition fetchInvestments (resp : RowsResponse) : Promise (list Investment) :=
  if isSet (rowsError resp) then Resolved []
  else
    match rows resp with
    | Some data => Resolved (map toCamelCase data)
    | None => Resolved []
    end.

(** [addInvestment] and [updateInvestment] once the row they send has
    been built, on what the query resolved to; [None] is null. *)
Definition savedInvestment (resp : RowResponse) : option Investment :=
  if isSet (rowError resp) then None
  else
    match row resp with
    | Some data => Some (toCamelCase data)
    | None => None
    end.

End Conversions.

End Persistence.

(** ** [components/InvestmentForm.tsx]: submitting the form *)

Module Form.

Record FormData : Type := mkFormData {
  broker : string;
  bank : string;
  title : InvestmentTitle;
  type : InvestmentType;
  amount : number;
  quantity : number;
  interestRate : number;
  incomeTax : number;
  startDate : string;
  dueDate : string
}.

(** The callback [handleSubmit] ends up calling. *)
Inductive Submission : Type :=
| onAdd (investment : Investment)
| onUpdate (investment : Investment).

Definition nonEmpty (s : string) : bool :=
  negb (String.eqb s EmptyString).

(** [handleSubmit]: [randomUUID] and [now] are what [crypto.randomUUID()]
    and [Date.now()] would return; [None] when the handler returns before
    calling back. *)
Definition handleSubmit (editingInvestment : option Investment)
           (fvPreview : CalculationResult) (randomUUID : string) (now : number)
           (formData : FormData) : option Submission :=
  if negb (nonEmpty (broker formData)) || negb (nonEmpty (bank formData))
     || negb (truthy (amount formData))
  then None
  else
    let investmentData :=
      mkInvestment
        (* id *) (match editingInvestment with
                  | Some e => id e
                  | None => randomUUID
                  end)
        (broker formData) (bank formData) (title formData) (type formData)
        (amount formData) (quantity formData) (interestRate formData)
        (incomeTax formData) (startDate formData) (dueDate formData)
        (* futureValue *) (gross fvPreview)
        (* netFutureValue *) (net fvPreview)
        (* createdAt *) (match editingInvestment with
                         | Some e => createdAt e
                         | None => now
                         end) in
    match editingInvestment with
    | Some _ => Some (onUpdate investmentData)
    | None => Some (onAdd investmentData)
    end.

End Form.

(** ** Properties the rest of the code is checked against *)

(** A string with no white space at its start. *)
Definition startsClean (s : string) : Prop :=
  match s with
  | EmptyString => True
  | String c _ => isWhite c = false
  end.

Definition riskRank (r : RiskLevel) : nat :=
  match r with Safe => 0 | Warning => 1 | Over => 2 end.

Definition isFinite (x : number) : Prop := exists q, x = Fin q.

Definition hasId (k : string) (inv : Investment) : bool :=
  String.eqb (id inv) k.

Section TableOrder.

Variable dateTime : string -> number.

(** A position can be ranked in a column when the number it is ranked by
    is finite (a valid date, in the two date columns). *)
Definition rankable (field : SortField) (inv : Investment) : Prop :=
  match field with
  | ByBank => True
  | _ => isFinite (rank dateTime field inv)
  end.

(** [a] may come before [b] in an ascending column. *)
Definition keyLe (field : SortField) (a b : Investment) : Prop :=
  match field with
  | ByBank =>
      String.leb (toLowerCase (bank a)) (toLowerCase (bank b)) = true
  | _ => value (rank dateTime field a) <= value (rank dateTime field b)
  end.

Definition inOrder (field : SortField) (dir : SortDirection)
           (a b : Investment) : Prop :=
  match dir with
  | Asc => keyLe field a b
  | Desc => keyLe field b a
  end.

Definition dueTime (inv : Investment) : number := dateTime (dueDate inv).

End TableOrder.

(** ** Sample data for the dated properties *)

(** The time of three dates, as [new Date(s).getTime()] gives them. *)
Definition sampleTime (s : string) : number :=
  if String.eqb s "2025-01-01" then Fin 1735689600000
  else if String.eqb s "2026-01-01" then Fin 1767225600000
  else if String.eqb s "1970-01-01T00:00:00.000Z" then Fin 0
  else NaN.

(** A position known by its id, its bank, its due date and its values. *)
Definition position (k b due : string) (a fv : Q) : Investment :=
  mkInvestment k "XP" b CDB CDI (Fin a) (Fin 1) (Fin 100) (Fin 15)
               "2024-01-01" due (Fin fv) (Fin fv) (Fin 0).

(** The ISO form of the epoch, as [new Date(0).toISOString()] gives it; no
    other time is needed by the examples. *)
Definition sampleISO (t : number) : option string :=
  match t with
  | Fin q => if Qeq_bool q 0 then Some "1970-01-01T00:00:00.000Z"%string
             else None
  | NaN => None
  end.

(** A position with another creation time. *)
Definition withCreatedAt (t : number) (inv : Investment) : Investment :=
  mkInvestment (id inv) (broker inv) (bank inv) (title inv) (type inv)
               (amount inv) (quantity inv) (interestRate inv) (incomeTax inv)
               (startDate inv) (dueDate inv) (futureValue inv)
               (netFutureValue inv) t.

(** The position a submission carries. *)
Definition payload (s : Form.Submission) : Investment :=
  match s with
  | Form.onAdd inv => inv
  | Form.onUpdate inv => inv
  end.

(** A form filled in with a negative amount. *)
Definition sampleForm : Form.FormData :=
  Form.mkFormData "XP" "Banco X" CDB CDI (Fin (-500)) (Fin 1) (Fin 100)
                  (Fin 15) "2024-01-01" "2026-01-01".

(** ** The aggregation in binary64

    The sums of the aggregation are binary64 sums: they round, they depend
    on the order of the terms and they can overflow.  This part embeds
    [fgcExposure] and the global limit card over the primitive floats, which
    are the binary64 numbers of the language.  [trim] and [toUpperCase] are
    the built-ins of the language and stay parameters; a [bank] that is null
    or undefined at run time is [None]. *)

Module Binary64.

Definition number : Type := PrimFloat.float.

(** ToBoolean on a number: [0], [-0] and [NaN] are falsy. *)
Definition truthy (x : number) : bool :=
  negb (PrimFloat.eqb x 0 || PrimFloat.is_nan x).

(** [v || 0], where a missing property (undefined) is [None]. *)
Definition orZero (v : option number) : number :=
  match v with
  | Some x => if truthy x then x else 0%float
  | None => 0%float
  end.

Record Investment : Type := mkInvestment {
  id : string;
  broker : string;
  bank : option string;
  title : InvestmentTitle;
  type : InvestmentType;
  amount : number;
  quantity : number;
  interestRate : number;
  incomeTax : number;
  startDate : string;
  dueDate : string;
  futureValue : number;
  netFutureValue : number;
  createdAt : number
}.

(** A plain object used as a dictionary, its own keys in creation order. *)
Definition Dict : Type := list (string * number).

Fixpoint get (o : Dict) (k : string) : option number :=
  match o with
  | [] => None
  | (k', v) :: o' => if String.eqb k' k then Some v else get o' k
  end.

Fixpoint set (o : Dict) (k : string) (v : number) : Dict :=
  match o with
  | [] => [(k, v)]
  | (k', v') :: o' =>
      if String.eqb k' k then (k', v) :: o' else (k', v') :: set o' k v
  end.

Definition isIndex (e : string * number) : bool :=
  match Obj.arrayIndex (fst e) with Some _ => true | None => false end.

Definition indexOf (e : string * number) : N :=
  match Obj.arrayIndex (fst e) with Some n => n | None => 0%N end.

Fixpoint insertIndex (e : string * number) (l : Dict) : Dict :=
  match l with
  | [] => [e]
  | e' :: l' =>
      if (indexOf e <=? indexOf e')%N then e :: l else e' :: insertIndex e l'
  end.

(** [Object.entries]: array indices first, ascending, then creation order. *)
Definition entries (o : Dict) : list (string * number) :=
  fold_right insertIndex [] (filter isIndex o)
  ++ filter (fun e => negb (isIndex e)) o.

(** What [Array.prototype.sort] makes of the comparator's result. *)
Definition sign (v : number) : comparison :=
  if PrimFloat.ltb v 0 then Lt
  else if PrimFloat.ltb 0 v then Gt
  else Eq.

Definition byTotalDesc (a b : string * number) : number :=
  PrimFloat.sub (snd b) (snd a).

Fixpoint insert (x : string * number) (l : list (string * number))
  : list (string * number) :=
  match l with
  | [] => [x]
  | y :: l' =>
      match sign (byTotalDesc x y) with
      | Gt => y :: insert x l'
      | _ => x :: l
      end
  end.

Definition sort (l : list (string * number)) : list (string * number) :=
  fold_right insert [] l.

Section Aggregation.

Variable trim : string -> string.
Variable toUpperCase : string -> string.

(** One step of the [forEach]: [None] is the TypeError that
    [inv.bank.trim()] raises on a bank that is null or undefined. *)
Definition addExposure (banks : Dict) (inv : Investment) : option Dict :=
  match bank inv with
  | None => None
  | Some b =>
      let bankName := toUpperCase (trim b) in
      Some (set banks bankName
                (PrimFloat.add (orZero (get banks bankName))
                               (orZero (Some (futureValue inv)))))
  end.

Fixpoint forEach (investments : list Investment) (banks : Dict)
  : option Dict :=
  match investments with
  | [] => Some banks
  | inv :: rest =>
      match addExposure banks inv with
      | Some banks' => forEach rest banks'
      | None => None
      end
  end.

Definition exposureByBank (investments : list Investment) : option Dict :=
  forEach investments [].

Definition fgcExposure (investments : list Investment)
  : option (list (string * number)) :=
  match exposureByBank investments with
  | Some banks => Some (sort (entries banks))
  | None => None
  end.

(** The positions of the institution whose normalised name is [k]. *)
Definition atBank (k : string) (inv : Investment) : bool :=
  match bank inv with
  | Some b => String.eqb (toUpperCase (trim b)) k
  | None => false
  end.

End Aggregation.

Definition totalFGC (investments : list Investment) : number :=
  fold_left (fun acc curr =>
               PrimFloat.add acc (orZero (Some (futureValue curr))))
            investments 0%float.

Definition FGC_GLOBAL_LIMIT : number := 1000000%float.

Definition isGlobalOver (totalFGC : number) : bool :=
  PrimFloat.ltb FGC_GLOBAL_LIMIT totalFGC.

Definition isGlobalWarning (totalFGC : number) : bool :=
  PrimFloat.ltb (PrimFloat.mul FGC_GLOBAL_LIMIT 0.8%float) totalFGC
  && negb (isGlobalOver totalFGC).

Definition riskLevel (totalFGC : number) : RiskLevel :=
  if isGlobalOver totalFGC then Over
  else if isGlobalWarning totalFGC then Warning
  else Safe.

Definition globalRisk (investments : list Investment) : RiskLevel :=
  riskLevel (totalFGC investments).

(** The running sum of a bucket over the gross values of its positions, in
    the order of the collection: [(banks[k] || 0) + (inv.futureValue || 0)],
    [None] before the first of them. *)
Definition bucketStep (acc : option number) (v : number) : option number :=
  Some (PrimFloat.add (orZero acc) (orZero (Some v))).

Definition bucketSum (values : list number) : option number :=
  fold_left bucketStep values None.

(** The global sum over the gross values, in the order of the collection. *)
Definition grossSum (values : list number) : number :=
  fold_left (fun acc v => PrimFloat.add acc (orZero (Some v))) values 0%float.

(** A position known by its bank and its gross projected value. *)
Definition pos (b : option string) (fv : number) : Investment :=
  mkInvestment "" "" b CDB CDI 0%float 1%float 100%float 15%float "" ""
               fv fv 0%float.

(** The two sums of [stats]: the amounts are added as they are, the net
    projected values behind [|| 0]. *)
Definition totalInvested (investments : list Investment) : number :=
  fold_left (fun acc curr => PrimFloat.add acc (amount curr))
            investments 0%float.

Definition totalFutureNet (investments : list Investment) : number :=
  fold_left (fun acc curr =>
               PrimFloat.add acc (orZero (Some (netFutureValue curr))))
            investments 0%float.

(** A position known by its amount and its net projected value. *)
Definition holding (a net : number) : Investment :=
  mkInvestment "" "" (Some "Banco X"%string) CDB CDI a 1%float 100%float
               15%float "" "" net net 0%float.

End Binary64.

(** * Theorems *)

(** ** Numbers *)

Lemma gt_Fin a b : gt (Fin a) (Fin b) = true <-> b < a.
Proof.
  unfold gt. rewrite (Qgt_alt a b).
  destruct (a ?= b); split; congruence.
Qed.

Lemma gt_Fin_false a b : gt (Fin a) (Fin b) = false <-> a <= b.
Proof.
  unfold gt. rewrite Qle_alt.
  destruct (a ?= b); split; congruence.
Qed.

Lemma orZero_Fin v : exists q, orZero v = Fin q /\ q == value (orZero v).
Proof.
  destruct v as [[q|]|]; simpl.
  - destruct (Qeq_bool q 0); eexists; split; reflexivity.
  - eexists; split; reflexivity.
  - eexists; split; reflexivity.
Qed.

Lemma value_orZero_Some x : value (orZero (Some x)) == value x.
Proof.
  destruct x as [q|]; simpl; [|reflexivity].
  destruct (Qeq_bool q 0) eqn:E; simpl; [|reflexivity].
  apply Qeq_bool_iff in E. symmetry. exact E.
Qed.

(** ** The global total and its classification over exact numbers

    These lemmas serve the properties of order and monotonicity below; the
    classification over the sums the engine computes is [risk_classification],
    in binary64. *)

Lemma totalFGC_from acc invs :
  fold_left (fun a curr => add a (orZero (Some (futureValue curr)))) invs
            (Fin acc)
  = Fin (fold_left (fun a curr => a + value (orZero (Some (futureValue curr))))
                   invs acc).
Proof.
  revert acc. induction invs as [|inv invs IH]; intros acc; cbn [fold_left].
  - reflexivity.
  - destruct (orZero_Fin (Some (futureValue inv))) as [q [Hq _]].
    rewrite Hq. cbn [add value]. apply IH.
Qed.

Lemma fold_sum_shift acc invs :
  fold_left (fun a curr => a + value (orZero (Some (futureValue curr))))
            invs acc
  == acc + sumGross invs.
Proof.
  revert acc.
  induction invs as [|inv invs IH]; intros acc; cbn [fold_left sumGross fold_right].
  - lra.
  - rewrite IH. pose proof (value_orZero_Some (futureValue inv)) as H.
    fold (sumGross invs). lra.
Qed.

Lemma totalFGC_sum invs :
  exists t, totalFGC invs = Fin t /\ t == sumGross invs.
Proof.
  unfold totalFGC. rewrite totalFGC_from. eexists. split; [reflexivity|].
  rewrite fold_sum_shift. lra.
Qed.

(** The product that sets the warning threshold is exact in binary64: the
    double nearest to 0.8 times 1,000,000 rounds to 800,000, the threshold of
    the rational model. *)
Lemma warningThreshold_exact :
  PrimFloat.eqb warningThresholdBinary64 800000%float = true
  /\ mul FGC_GLOBAL_LIMIT (Fin 0.8) = Fin (1000000 * 0.8)
  /\ 1000000 * 0.8 == 800000.
Proof. repeat split. Qed.

Lemma riskLevel_Fin t :
  (riskLevel (Fin t) = Over <-> 1000000 < t)
  /\ (riskLevel (Fin t) = Warning <-> 0.8 * 1000000 < t /\ ~ 1000000 < t)
  /\ (riskLevel (Fin t) = Safe <-> t <= 0.8 * 1000000).
Proof.
  unfold riskLevel, isGlobalWarning, isGlobalOver, FGC_GLOBAL_LIMIT.
  cbn [mul].
  destruct (gt (Fin t) (Fin 1000000)) eqn:Ho;
    destruct (gt (Fin t) (Fin (1000000 * 0.8))) eqn:Hw; cbn [andb negb];
    repeat match goal with
           | H : gt _ _ = true |- _ => apply gt_Fin in H
           | H : gt _ _ = false |- _ => apply gt_Fin_false in H
           end;
    repeat split; intros; try discriminate; try lra;
    try (destruct H; lra).
Qed.

(** The collection of section 8: 200,000 and 100,000 at one institution and
    50,000 at another. *)
Example scenario_three_positions :
  let invs := [pos "Banco X" 200000; pos "Outro" 50000; pos "banco x " 100000] in
  fgcExposure invs = [("BANCO X"%string, Fin 300000); ("OUTRO"%string, Fin 50000)]
  /\ totalFGC invs = Fin 350000
  /\ globalRisk invs = Safe.
Proof. repeat split; reflexivity. Qed.

(** ** The bulk recompute *)

Section Recompute.

Variable calculateFutureValue : Investment -> MarketRates -> CalculationResult.

Lemma recalculated_terms newRates inv :
  terms (recalculated calculateFutureValue newRates inv) = terms inv.
Proof. reflexivity. Qed.

Lemma recalculated_values newRates inv :
  futureValue (recalculated calculateFutureValue newRates inv)
  = gross (calculateFutureValue inv newRates)
  /\ netFutureValue (recalculated calculateFutureValue newRates inv)
     = net (calculateFutureValue inv newRates).
Proof. split; reflexivity. Qed.

(** C9. The recompute triggered by new market rates keeps the length and
    the order of the collection; the position at each index keeps every
    field but [futureValue] and [netFutureValue], which become the gross
    and net values freshly computed for that position. *)
Theorem recompute_frame (newRates : MarketRates) (st : AppState) :
  let st' := handleMarketRatesChange calculateFutureValue newRates st in
  List.length (investments st') = List.length (investments st)
  /\ map terms (investments st') = map terms (investments st)
  /\ (forall i inv,
        nth_error (investments st) i = Some inv ->
        exists inv',
          nth_error (investments st') i = Some inv'
          /\ terms inv' = terms inv
          /\ futureValue inv' = gross (calculateFutureValue inv newRates)
          /\ netFutureValue inv'
             = net (calculateFutureValue inv newRates)).
Proof.
  cbn [handleMarketRatesChange investments]. unfold updatedInvestments.
  split; [apply List.length_map|]. split.
  - rewrite map_map. apply map_ext. intros inv. apply recalculated_terms.
  - intros i inv Hi. exists (recalculated calculateFutureValue newRates inv).
    split; [|split; [apply recalculated_terms|apply recalculated_values]].
    rewrite nth_error_map, Hi. reflexivity.
Qed.

End Recompute.

(** ** Reading the market rates *)

Section FetchRates.

Import Service.
Variable StringToNumber : string -> number.

(** C10. When the store answers with an error or without a row,
    [fetchMarketRates] resolves to the default snapshot (cdi 11.25,
    ipca 4.5); otherwise it resolves to the stored [cdi] and [ipca], each
    passed through [Number]; it never rejects. *)
Theorem fetchMarketRates_total (resp : Response) :
  (error resp <> None \/ data resp = None ->
   fetchMarketRates StringToNumber resp
   = Resolved {| cdi := Fin 11.25; ipca := Fin 4.5 |})
  /\ (forall row,
        error resp = None -> data resp = Some row ->
        fetchMarketRates StringToNumber resp
        = Resolved {| cdi := Number StringToNumber (row_cdi row);
                      ipca := Number StringToNumber (row_ipca row) |})
  /\ (exists rates, fetchMarketRates StringToNumber resp = Resolved rates).
Proof.
  unfold fetchMarketRates.
  destruct resp as [[row|] [e|]]; cbn [data error isSet orb negb];
    (split; [|split]); intros; try discriminate; try reflexivity;
    try (eexists; reflexivity).
  - destruct H as [H|H]; [congruence|discriminate].
  - congruence.
Qed.

End FetchRates.

(** ** Normalising institution names *)

Ltac each_char c :=
  destruct c as [[] [] [] [] [] [] [] []]; try reflexivity.

Lemma isWhite_upperChar c : isWhite (upperChar c) = isWhite c.
Proof. each_char c. Qed.

Lemma upperChar_swapCase c : upperChar (swapCase c) = upperChar c.
Proof. each_char c. Qed.

Lemma trimStart_toUpperCase s :
  trimStart (toUpperCase s) = toUpperCase (trimStart s).
Proof.
  induction s as [|c s IH]; cbn [toUpperCase trimStart]; [reflexivity|].
  rewrite isWhite_upperChar. destruct (isWhite c); [exact IH|reflexivity].
Qed.

Lemma trimEnd_toUpperCase s :
  trimEnd (toUpperCase s) = toUpperCase (trimEnd s).
Proof.
  induction s as [|c s IH]; cbn [toUpperCase trimEnd]; [reflexivity|].
  rewrite IH, isWhite_upperChar.
  destruct (trimEnd s); cbn [toUpperCase]; [|reflexivity].
  destruct (isWhite c); reflexivity.
Qed.

Lemma trim_toUpperCase s : trim (toUpperCase s) = toUpperCase (trim s).
Proof. unfold trim. rewrite trimStart_toUpperCase. apply trimEnd_toUpperCase. Qed.

Lemma sameLetters_toUpperCase s t :
  sameLetters s t -> toUpperCase s = toUpperCase t.
Proof.
  induction 1 as [|c d s t Hcd _ IH]; cbn [toUpperCase]; [reflexivity|].
  rewrite IH. f_equal.
  destruct Hcd as [-> | ->]; [reflexivity|].
  symmetry. apply upperChar_swapCase.
Qed.

Lemma trimStart_allWhite l : allWhite l = true -> trimStart l = EmptyString.
Proof.
  induction l as [|c l IH]; cbn [allWhite trimStart]; [reflexivity|].
  intros H. apply andb_prop in H. destruct H as [Hc Hl].
  rewrite Hc. exact (IH Hl).
Qed.

Lemma trimStart_padding l s :
  allWhite l = true -> trimStart (l ++ s) = trimStart s.
Proof.
  induction l as [|c l IH]; cbn [allWhite append trimStart]; [reflexivity|].
  intros H. apply andb_prop in H. destruct H as [Hc Hl].
  rewrite Hc. exact (IH Hl).
Qed.

Lemma trimEnd_allWhite r : allWhite r = true -> trimEnd r = EmptyString.
Proof.
  induction r as [|c r IH]; cbn [allWhite trimEnd]; [reflexivity|].
  intros H. apply andb_prop in H. destruct H as [Hc Hr].
  rewrite (IH Hr), Hc. reflexivity.
Qed.

Lemma trimEnd_padding s r :
  allWhite r = true -> trimEnd (s ++ r) = trimEnd s.
Proof.
  intros Hr. induction s as [|c s IH]; cbn [append trimEnd].
  - apply trimEnd_allWhite, Hr.
  - rewrite IH. reflexivity.
Qed.

Lemma trim_padding_right s r : allWhite r = true -> trim (s ++ r) = trim s.
Proof.
  intros Hr. unfold trim. induction s as [|c s IH]; cbn [append trimStart].
  - rewrite (trimStart_allWhite r Hr). reflexivity.
  - destruct (isWhite c); [exact IH|].
    change (String c (s ++ r)) with (String c s ++ r)%string.
    apply trimEnd_padding, Hr.
Qed.

Lemma trim_padding l s r :
  allWhite l = true -> allWhite r = true -> trim (l ++ s ++ r) = trim s.
Proof.
  intros Hl Hr. unfold trim at 1. rewrite (trimStart_padding l _ Hl).
  fold (trim (s ++ r)). apply trim_padding_right, Hr.
Qed.

Lemma sameInstitution_normalised a b :
  sameInstitution a b -> toUpperCase (trim a) = toUpperCase (trim b).
Proof.
  intros (l1 & r1 & l2 & r2 & c1 & c2 & -> & -> & Hl1 & Hr1 & Hl2 & Hr2 & Hc).
  rewrite !trim_padding by assumption.
  rewrite <- !trim_toUpperCase.
  f_equal. apply sameLetters_toUpperCase, Hc.
Qed.

(** ** Objects as dictionaries *)

Lemma keys_set o k v : map fst (Obj.set o k v) = noteName (map fst o) k.
Proof.
  unfold noteName.
  induction o as [|[k' v'] o IH]; cbn [Obj.set map fst existsb app].
  - reflexivity.
  - destruct (String.eqb k' k) eqn:E; cbn [orb map fst].
    + reflexivity.
    + rewrite IH. destruct (existsb _ (map fst o)); reflexivity.
Qed.

Lemma existsb_eqb_In k l :
  existsb (fun k' => String.eqb k' k) l = true <-> In k l.
Proof.
  rewrite existsb_exists. split.
  - intros [x [Hx E]]. apply String.eqb_eq in E. subst. exact Hx.
  - intros H. exists k. split; [exact H|apply String.eqb_refl].
Qed.

Lemma noteName_NoDup seen k : NoDup seen -> NoDup (noteName seen k).
Proof.
  intros H. unfold noteName.
  destruct (existsb _ seen) eqn:E; [exact H|].
  apply NoDup_app; [exact H|repeat constructor; intros []|].
  intros x Hx [<-|[]].
  apply existsb_eqb_In in Hx. congruence.
Qed.


(** [Object.entries] lists every own property once. *)
Lemma insertIndex_perm e l : Permutation (Obj.insertIndex e l) (e :: l).
Proof.
  induction l as [|e' l IH]; cbn [Obj.insertIndex]; [reflexivity|].
  destruct (Obj.indexOf e <=? Obj.indexOf e')%N; [reflexivity|].
  rewrite IH. apply perm_swap.
Qed.

Lemma sortIndices_perm l : Permutation (Obj.sortIndices l) l.
Proof.
  induction l as [|e l IH]; cbn; [reflexivity|].
  rewrite insertIndex_perm. constructor. exact IH.
Qed.

Lemma filter_split_perm {A} (f : A -> bool) l :
  Permutation (filter f l ++ filter (fun x => negb (f x)) l) l.
Proof.
  induction l as [|x l IH]; cbn [filter]; [reflexivity|].
  destruct (f x); cbn [negb app].
  - constructor. exact IH.
  - rewrite <- Permutation_middle. constructor. exact IH.
Qed.

Lemma entries_perm o : Permutation (Obj.entries o) o.
Proof.
  unfold Obj.entries. rewrite sortIndices_perm. apply filter_split_perm.
Qed.

(** ** The buckets of [fgcExposure] *)

Lemma addExposure_is_set o inv :
  exists q, addExposure o inv = Obj.set o (bankName inv) (Fin q)
            /\ q == bucket o (bankName inv) + value (futureValue inv).
Proof.
  unfold addExposure, bucket.
  destruct (orZero_Fin (Obj.get o (bankName inv))) as [a [Ha Ea]].
  destruct (orZero_Fin (Some (futureValue inv))) as [b [Hb Eb]].
  pose proof (value_orZero_Some (futureValue inv)) as Hv.
  rewrite Ha, Hb in *. cbn [add value] in *.
  exists (a + b). split; [reflexivity|]. lra.
Qed.

Lemma exposure_keys invs o :
  map fst (fold_left addExposure invs o)
  = fold_left noteName (map bankName invs) (map fst o).
Proof.
  revert o. induction invs as [|inv invs IH]; intros o; cbn [fold_left map].
  - reflexivity.
  - rewrite IH. f_equal.
    destruct (addExposure_is_set o inv) as [q [-> _]]. apply keys_set.
Qed.

Lemma fold_noteName_NoDup names seen :
  NoDup seen -> NoDup (fold_left noteName names seen).
Proof.
  revert seen. induction names as [|k names IH]; intros seen H; cbn.
  - exact H.
  - apply IH, noteName_NoDup, H.
Qed.

Lemma exposure_NoDup invs : NoDup (map fst (exposureByBank invs)).
Proof.
  unfold exposureByBank. rewrite exposure_keys.
  apply fold_noteName_NoDup. constructor.
Qed.



(** ** Sorting the report *)

Section SortFacts.

Context {A : Type} (comparefn : A -> A -> number).

Lemma insert_perm x l : Permutation (Arr.insert comparefn x l) (x :: l).
Proof.
  induction l as [|y l IH]; cbn [Arr.insert]; [reflexivity|].
  destruct (Arr.sign (comparefn x y)); try reflexivity.
  rewrite IH. apply perm_swap.
Qed.

Lemma sort_perm l : Permutation (Arr.sort comparefn l) l.
Proof.
  induction l as [|x l IH]; cbn; [reflexivity|].
  rewrite insert_perm. constructor. exact IH.
Qed.

End SortFacts.

Lemma byTotalDesc_after x y :
  finite x -> finite y ->
  (Arr.sign (byTotalDesc x y) = Gt <-> total x < total y).
Proof.
  intros [a Ha] [b Hb]. unfold byTotalDesc, total. rewrite Ha, Hb.
  cbn [sub Arr.sign value]. rewrite <- Qgt_alt. split; intros H; lra.
Qed.

Lemma insert_sorted x l :
  finite x -> Forall finite l ->
  StronglySorted totalDesc l ->
  StronglySorted totalDesc (Arr.insert byTotalDesc x l).
Proof.
  intros Hx Hl Hs. induction Hs as [|y l Hs IH Hy]; cbn [Arr.insert].
  - repeat constructor.
  - inversion Hl as [|? ? Hfy Hfl]; subst.
    pose proof (byTotalDesc_after x y Hx Hfy) as Hgt.
    destruct (Arr.sign (byTotalDesc x y)) eqn:E.
    + assert (Hle : total y <= total x)
        by (apply Qnot_lt_le; intros C; apply Hgt in C; discriminate).
      constructor; [constructor; assumption|].
      constructor; [exact Hle|].
      eapply Forall_impl; [|exact Hy]. unfold totalDesc. intros z Hz. lra.
    + assert (Hle : total y <= total x)
        by (apply Qnot_lt_le; intros C; apply Hgt in C; discriminate).
      constructor; [constructor; assumption|].
      constructor; [exact Hle|].
      eapply Forall_impl; [|exact Hy]. unfold totalDesc. intros z Hz. lra.
    + constructor; [exact (IH Hfl)|].
      apply (Permutation_Forall (x := x :: l)).
      * symmetry. apply insert_perm.
      * constructor; [|exact Hy].
        unfold totalDesc. apply Qlt_le_weak. apply Hgt. reflexivity.
Qed.

Lemma sort_sorted l :
  Forall finite l -> StronglySorted totalDesc (Arr.sort byTotalDesc l).
Proof.
  induction 1 as [|x l Hx Hl IH]; cbn [Arr.sort fold_right]; [constructor|].
  apply insert_sorted; [exact Hx| |exact IH].
  apply (Permutation_Forall (x := l)); [symmetry; apply sort_perm|exact Hl].
Qed.

(** Elements of equal total keep their relative order. *)
Lemma insert_stable t x l :
  finite x -> Forall finite l ->
  filter (hasTotal t) (Arr.insert byTotalDesc x l)
  = filter (hasTotal t) (x :: l).
Proof.
  intros Hx Hl. induction Hl as [|y l Hy Hl IH]; cbn [Arr.insert];
    [reflexivity|].
  pose proof (byTotalDesc_after x y Hx Hy) as Hgt.
  destruct (Arr.sign (byTotalDesc x y)); try reflexivity.
  assert (Hlt : total x < total y) by (apply Hgt; reflexivity).
  cbn [filter] in *. rewrite IH. unfold hasTotal.
  destruct (Qeq_bool (total x) t) eqn:Ex; [|reflexivity].
  destruct (Qeq_bool (total y) t) eqn:Ey; [|reflexivity].
  apply Qeq_bool_iff in Ex, Ey. lra.
Qed.

Lemma sort_stable t l :
  Forall finite l ->
  filter (hasTotal t) (Arr.sort byTotalDesc l) = filter (hasTotal t) l.
Proof.
  induction 1 as [|x l Hx Hl IH]; cbn [Arr.sort fold_right]; [reflexivity|].
  rewrite insert_stable.
  - cbn [filter]. fold (Arr.sort byTotalDesc l). rewrite IH. reflexivity.
  - exact Hx.
  - apply (Permutation_Forall (x := l)); [symmetry; apply sort_perm|exact Hl].
Qed.

Lemma hasTotal_self x : hasTotal (total x) x = true.
Proof. unfold hasTotal. apply Qeq_bool_iff. reflexivity. Qed.

Lemma filter_head_In {A} (f : A -> bool) l x rest :
  filter f l = x :: rest -> In x l.
Proof.
  intros H. assert (Hin : In x (filter f l)) by (rewrite H; left; reflexivity).
  apply filter_In in Hin. apply Hin.
Qed.

(** A list sorted descending by total is determined by the sublists of its
    elements of each total: whatever stable sorting algorithm the engine
    runs, its result is the one of [Arr.sort]. *)
Lemma sorted_stable_unique l1 l2 :
  StronglySorted totalDesc l1 -> StronglySorted totalDesc l2 ->
  (forall t, filter (hasTotal t) l1 = filter (hasTotal t) l2) ->
  l1 = l2.
Proof.
  intros H1. revert l2.
  induction H1 as [|x l1 Hs1 IH Hx]; intros l2 H2 Heq.
  - destruct l2 as [|y l2]; [reflexivity|].
    specialize (Heq (total y)). cbn [filter] in Heq.
    rewrite hasTotal_self in Heq. discriminate.
  - destruct H2 as [|y l2 Hs2 Hy].
    + specialize (Heq (total x)). cbn [filter] in Heq.
      rewrite hasTotal_self in Heq. discriminate.
    + assert (Exy : x = y).
      { pose proof (Heq (total x)) as Ex. pose proof (Heq (total y)) as Ey.
        cbn [filter] in Ex, Ey. rewrite hasTotal_self in Ex, Ey.
        destruct (hasTotal (total x) y) eqn:Fy; [congruence|].
        exfalso.
        assert (Fx : hasTotal (total y) x = false).
        { unfold hasTotal in *. destruct (Qeq_bool (total x) (total y)) eqn:E;
            [|reflexivity].
          apply Qeq_bool_iff in E.
          assert (C : Qeq_bool (total y) (total x) = true)
            by (apply Qeq_bool_iff; symmetry; exact E).
          congruence. }
        rewrite Fx in Ey.
        symmetry in Ex. apply filter_head_In in Ex. apply filter_head_In in Ey.
        rewrite Forall_forall in Hx, Hy.
        pose proof (Hx _ Ey) as Hyx. pose proof (Hy _ Ex) as Hxy.
        unfold totalDesc, hasTotal in *.
        assert (E : Qeq_bool (total y) (total x) = true)
          by (apply Qeq_bool_iff; lra).
        congruence. }
      subst y. f_equal. apply IH; [exact Hs2|].
      intros t. specialize (Heq t). cbn [filter] in Heq.
      destruct (hasTotal t x); congruence.
Qed.

Lemma sort_determined l l' :
  Forall finite l ->
  StronglySorted totalDesc l' ->
  (forall t, filter (hasTotal t) l' = filter (hasTotal t) l) ->
  l' = Arr.sort byTotalDesc l.
Proof.
  intros Hl Hs Hst. apply sorted_stable_unique.
  - exact Hs.
  - apply sort_sorted, Hl.
  - intros t. rewrite Hst. symmetry. apply sort_stable, Hl.
Qed.


Lemma fgcExposure_perm invs : Permutation (fgcExposure invs) (exposureByBank invs).
Proof.
  unfold fgcExposure. rewrite sort_perm. apply entries_perm.
Qed.

Lemma fold_noteName_seen names seen k :
  In k seen -> In k (fold_left noteName names seen).
Proof.
  revert seen. induction names as [|n names IH]; intros seen H; cbn.
  - exact H.
  - apply IH. unfold noteName.
    destruct (existsb _ seen); [exact H|apply in_or_app; left; exact H].
Qed.

Lemma fold_noteName_In names seen k :
  In k (fold_left noteName names seen) <-> In k seen \/ In k names.
Proof.
  revert seen. induction names as [|n names IH]; intros seen; cbn.
  - tauto.
  - rewrite IH. unfold noteName.
    destruct (existsb _ seen) eqn:E.
    + apply existsb_eqb_In in E. intuition (subst; auto).
    + rewrite in_app_iff. cbn. tauto.
Qed.

Lemma exposure_names invs k :
  In k (map fst (exposureByBank invs)) <-> In k (map bankName invs).
Proof.
  unfold exposureByBank. rewrite exposure_keys, fold_noteName_In. cbn. tauto.
Qed.

Lemma fgcExposure_names invs k :
  In k (map fst (fgcExposure invs)) <-> In k (map bankName invs).
Proof.
  rewrite <- exposure_names. split; apply Permutation_in, Permutation_map.
  - apply fgcExposure_perm.
  - symmetry. apply fgcExposure_perm.
Qed.

(** ** The order of the report *)

Lemma filter_none {A} (f : A -> bool) l :
  (forall x, In x l -> f x = false) -> filter f l = [].
Proof.
  induction l as [|x l IH]; intros H; cbn [filter]; [reflexivity|].
  rewrite (H x) by (left; reflexivity).
  apply IH. intros y Hy. apply H. right. exact Hy.
Qed.

Lemma filter_all {A} (f : A -> bool) l :
  (forall x, In x l -> f x = true) -> filter f l = l.
Proof.
  induction l as [|x l IH]; intros H; cbn [filter]; [reflexivity|].
  rewrite (H x) by (left; reflexivity). f_equal.
  apply IH. intros y Hy. apply H. right. exact Hy.
Qed.

Lemma entries_without_indices o :
  (forall e, In e o -> Obj.isIndex e = false) -> Obj.entries o = o.
Proof.
  intros H. unfold Obj.entries.
  rewrite (filter_none Obj.isIndex o H), filter_all; [reflexivity|].
  intros e He. rewrite (H e He). reflexivity.
Qed.



(** ** The projection *)

Module ProjectionFacts.

Import Projection ProjectionExamples.
Local Open Scope R_scope.

Lemma power_positive x y : 0 < x -> power x y = Rpower x y.
Proof.
  intros Hx. unfold power. destruct (Req_EM_T x 0) as [E|_]; [lra|reflexivity].
Qed.

(** A rate of -100% over a real holding period leaves nothing. *)
Lemma total_loss (p : Position) (m : Rates) :
  (startDate p < dueDate p)%Z ->
  effectiveAnnualRate p m = -1 ->
  grossValue p m = 0.
Proof.
  intros Hd Hr. unfold grossValue, power. rewrite Hr.
  destruct (Req_EM_T (1 + -1) 0) as [_|C]; [|exfalso; apply C; lra].
  assert (Hy : 0 < periodYears p).
  { unfold periodYears. apply Rdiv_lt_0_compat; [|lra]. apply IZR_lt. lia. }
  destruct (Req_EM_T (periodYears p) 0) as [E|_]; lra.
Qed.

Lemma round2_cents (z : Z) : round2 (IZR z / 100) = IZR z / 100.
Proof.
  unfold round2. f_equal. f_equal. symmetry. apply Int_part_spec. lra.
Qed.

Lemma project_valid p m :
  (startDate p < dueDate p)%Z -> 0 < principal p ->
  project p m = Ok {| gross := round2 (grossValue p m);
                      net := round2 (netValue p m) |}.
Proof.
  intros Hd Hp. unfold project.
  destruct (Z.leb_spec (dueDate p) (startDate p)) as [H|_]; [lia|].
  destruct (Rle_dec (principal p) 0) as [H|_]; [lra|reflexivity].
Qed.

Lemma one_year (s : Z) : IZR (s + 365 - s) / 365 = 1.
Proof. replace (s + 365 - s)%Z with 365%Z by lia. lra. Qed.

(** C2. A principal of 10000 post-fixed at 100% of a reference index of
    12%, taxed at 15% and held for exactly 365 days, has an effective
    annual rate of 0.12 and projects to a gross value of 11200.00 and a
    net value of 11020.00. *)
Theorem scenario_one_year (s : Z) (inflation : R) (name : string) :
  let p := {| principal := 10000;
              indexRegime := PostFixedToReferenceIndex;
              rateParameter := 100;
              taxRate := 15;
              startDate := s;
              dueDate := s + 365;
              institution := name |} in
  let m := {| referenceIndexAnnualRate := 12;
              inflationAnnualRate := inflation |} in
  effectiveAnnualRate p m = 12 / 100
  /\ project p m = Ok {| gross := 11200; net := 11020 |}.
Proof.
  intros p m.
  assert (He : effectiveAnnualRate p m = 12 / 100)
    by (unfold effectiveAnnualRate; cbn; lra).
  assert (Hg : grossValue p m = 11200).
  { unfold grossValue, periodYears. rewrite He. cbn [dueDate startDate p].
    rewrite one_year, power_positive, Rpower_1 by lra. cbn. lra. }
  assert (Hn : netValue p m = 11020).
  { unfold netValue, gain. rewrite Hg. cbn [principal taxRate p].
    destruct (Rle_dec 0 (11200 - 10000)); lra. }
  split; [exact He|].
  rewrite project_valid by (cbn; lra || lia).
  rewrite Hg, Hn.
  replace 11200 with (IZR 1120000 / 100) by lra.
  replace 11020 with (IZR 1102000 / 100) by lra.
  rewrite !round2_cents. reflexivity.
Qed.

(** A negative effective rate over a real holding period makes a loss. *)
Lemma negative_rate_loses (p : Position) (m : Rates) :
  (startDate p < dueDate p)%Z ->
  0 < principal p ->
  -1 < effectiveAnnualRate p m < 0 ->
  gain p m < 0.
Proof.
  intros Hd Hp [Hlo Hhi]. unfold gain, grossValue.
  assert (Hy : 0 < periodYears p).
  { unfold periodYears. apply Rdiv_lt_0_compat; [|lra].
    apply IZR_lt. lia. }
  assert (Hln : ln (1 + effectiveAnnualRate p m) < 0).
  { rewrite <- ln_1. apply ln_increasing; lra. }
  assert (Hpow : power (1 + effectiveAnnualRate p m) (periodYears p) < 1).
  { rewrite power_positive by lra.
    unfold Rpower. apply Rlt_le_trans with (exp 0).
    - apply exp_increasing. nra.
    - rewrite exp_0. lra. }
  nra.
Qed.

(** C3. A valid position whose projected gain is negative is returned with
    a net value equal to its gross value: no tax is applied to the loss,
    and net does not exceed gross. *)
Theorem loss_is_not_taxed (p : Position) (m : Rates) :
  (startDate p < dueDate p)%Z ->
  0 < principal p ->
  gain p m < 0 ->
  exists res,
    project p m = Ok res /\ net res = gross res /\ net res <= gross res.
Proof.
  intros Hd Hp Hloss. eexists. split; [apply project_valid; assumption|].
  cbn [net gross]. unfold netValue.
  destruct (Rle_dec 0 (gain p m)) as [H|_]; [lra|]. split; [reflexivity|lra].
Qed.

Lemma halved_gain : gain halved anyRates = -500.
Proof.
  unfold gain, grossValue, periodYears, effectiveAnnualRate. cbn.
  replace (365 / 365) with 1 by lra.
  rewrite power_positive, Rpower_1 by lra. lra.
Qed.

Lemma loss_is_not_taxed_witness :
  exists res,
    project halved anyRates = Ok res
    /\ net res = gross res /\ net res <= gross res.
Proof.
  apply (loss_is_not_taxed halved anyRates).
  - cbn. lia.
  - cbn. lra.
  - rewrite halved_gain. lra.
Defined.

End ProjectionFacts.

(** * Further properties of the sources *)

(** ** The names of the report *)

Lemma upperChar_idempotent c : upperChar (upperChar c) = upperChar c.
Proof. each_char c. Qed.

Lemma toUpperCase_idempotent s : toUpperCase (toUpperCase s) = toUpperCase s.
Proof.
  induction s as [|c s IH]; cbn [toUpperCase]; [reflexivity|].
  rewrite upperChar_idempotent, IH. reflexivity.
Qed.

Lemma trimEnd_idempotent s : trimEnd (trimEnd s) = trimEnd s.
Proof.
  induction s as [|c s IH]; cbn [trimEnd]; [reflexivity|].
  destruct (trimEnd s) as [|d t] eqn:E.
  - destruct (isWhite c) eqn:W; cbn [trimEnd]; [reflexivity|].
    rewrite W. reflexivity.
  - cbn [trimEnd]. cbn [trimEnd] in IH. rewrite IH. reflexivity.
Qed.

Lemma trimStart_startsClean s : startsClean (trimStart s).
Proof.
  induction s as [|c s IH]; cbn [trimStart]; [exact I|].
  destruct (isWhite c) eqn:W; [exact IH|exact W].
Qed.

Lemma startsClean_trimStart s : startsClean s -> trimStart s = s.
Proof.
  destruct s as [|c s]; cbn [startsClean trimStart]; [reflexivity|].
  intros ->. reflexivity.
Qed.

Lemma trimEnd_startsClean s : startsClean s -> startsClean (trimEnd s).
Proof.
  destruct s as [|c s]; cbn [startsClean trimEnd]; [trivial|].
  intros W. destruct (trimEnd s); [rewrite W|]; exact W.
Qed.

Lemma trim_idempotent s : trim (trim s) = trim s.
Proof.
  unfold trim.
  rewrite (startsClean_trimStart (trimEnd (trimStart s)))
    by apply trimEnd_startsClean, trimStart_startsClean.
  apply trimEnd_idempotent.
Qed.

Lemma bankName_normalised inv :
  toUpperCase (trim (bankName inv)) = bankName inv.
Proof.
  unfold bankName.
  rewrite <- trim_toUpperCase, toUpperCase_idempotent, trim_toUpperCase.
  rewrite trim_idempotent. reflexivity.
Qed.

Lemma fold_noteName_length names seen :
  (List.length (fold_left noteName names seen)
   <= List.length seen + List.length names)%nat.
Proof.
  revert seen. induction names as [|k names IH]; intros seen; cbn [fold_left].
  - cbn. lia.
  - specialize (IH (noteName seen k)). unfold noteName in *.
    destruct (existsb _ seen); cbn [List.length] in *;
      [|rewrite List.length_app in IH; cbn in IH]; lia.
Qed.

Lemma fgcExposure_NoDup invs : NoDup (map fst (fgcExposure invs)).
Proof.
  apply (Permutation_NoDup (l := map fst (exposureByBank invs))).
  - apply Permutation_map. symmetry. apply fgcExposure_perm.
  - apply exposure_NoDup.
Qed.

(** X2. The report lists every institution once: its names are pairwise
    distinct, each is left unchanged by the normalisation (trim, then upper
    case), and there are as many as there are distinct normalised names in the
    collection, never more than there are positions. *)
Theorem report_names (invs : list Investment) :
  NoDup (map fst (fgcExposure invs))
  /\ (forall k, In k (map fst (fgcExposure invs)) -> toUpperCase (trim k) = k)
  /\ List.length (fgcExposure invs)
     = List.length (firstOccurrences (map bankName invs))
  /\ (List.length (fgcExposure invs) <= List.length invs)%nat.
Proof.
  assert (Hlen : List.length (fgcExposure invs)
                 = List.length (firstOccurrences (map bankName invs))).
  { rewrite (Permutation_length (fgcExposure_perm invs)).
    rewrite <- (List.length_map fst). unfold exposureByBank.
    rewrite exposure_keys. reflexivity. }
  split; [apply fgcExposure_NoDup|]. split; [|split; [exact Hlen|]].
  - intros k Hk. apply fgcExposure_names in Hk.
    apply in_map_iff in Hk. destruct Hk as [inv [<- _]].
    apply bankName_normalised.
  - rewrite Hlen. unfold firstOccurrences.
    pose proof (fold_noteName_length (map bankName invs) []) as H.
    rewrite List.length_map in H. exact H.
Qed.

(** ** The level when a position is added *)

Lemma totalFGC_app invs inv :
  exists t,
    totalFGC invs = Fin t
    /\ exists t', totalFGC (invs ++ [inv]) = Fin t'
                  /\ t' == t + value (futureValue inv).
Proof.
  destruct (totalFGC_sum invs) as [t [Ht Hs]].
  destruct (totalFGC_sum (invs ++ [inv])) as [t' [Ht' Hs']].
  exists t. split; [exact Ht|]. exists t'. split; [exact Ht'|].
  rewrite Hs, Hs'. clear.
  induction invs as [|i invs IH]; cbn [app sumGross fold_right].
  - lra.
  - fold (sumGross (invs ++ [inv])). fold (sumGross invs). lra.
Qed.

(** X4. Adding a position whose gross projected value is not negative never
    lowers the level: [Safe] may become [Warning] or [Over], never the other
    way round. *)
Theorem level_never_lowered (invs : list Investment) (inv : Investment) :
  0 <= value (futureValue inv) ->
  (riskRank (globalRisk invs) <= riskRank (globalRisk (invs ++ [inv])))%nat.
Proof.
  intros Hpos.
  destruct (totalFGC_app invs inv) as (t & Ht & t' & Ht' & Hsum).
  unfold globalRisk. rewrite Ht, Ht'.
  destruct (riskLevel_Fin t) as (Ho & Hw & Hs).
  destruct (riskLevel_Fin t') as (Ho' & Hw' & Hs').
  destruct (riskLevel (Fin t)) eqn:E; cbn [riskRank]; [lia| |].
  - assert (H : 0.8 * 1000000 < t) by (apply Hw; reflexivity).
    destruct (riskLevel (Fin t')) eqn:E'; cbn [riskRank]; try lia.
    assert (t' <= 0.8 * 1000000) by (apply Hs'; reflexivity). lra.
  - assert (H : 1000000 < t) by (apply Ho; reflexivity).
    assert (H' : riskLevel (Fin t') = Over) by (rewrite E' || apply Ho'; lra).
    rewrite H'. cbn. lia.
Qed.

Lemma level_never_lowered_witness :
  0 <= value (futureValue (pos "Banco X" 300000))
  /\ (riskRank (globalRisk [pos "Banco X" 750000])
      <= riskRank (globalRisk ([pos "Banco X" 750000]
                               ++ [pos "Banco X" 300000])))%nat.
Proof.
  assert (H : 0 <= value (futureValue (pos "Banco X" 300000)))
    by (cbn; lra).
  split; [exact H|].
  exact (level_never_lowered [pos "Banco X" 750000] (pos "Banco X" 300000) H).
Defined.

(** ** The chart *)

Lemma typeName_not_index t v : Obj.isIndex (typeName t, v) = false.
Proof. destruct t; reflexivity. Qed.

Lemma chart_keys invs o :
  map fst (fold_left addAmount invs o)
  = fold_left noteName (map (fun inv => typeName (type inv)) invs) (map fst o).
Proof.
  revert o. induction invs as [|inv invs IH]; intros o; cbn [fold_left map].
  - reflexivity.
  - rewrite IH. f_equal. apply keys_set.
Qed.

Lemma chart_entries invs :
  chartData invs = fold_left addAmount invs Obj.empty.
Proof.
  unfold chartData. apply entries_without_indices. intros [k v] He.
  assert (Hk : In k (map fst (fold_left addAmount invs Obj.empty)))
    by (apply (in_map fst) in He; exact He).
  rewrite chart_keys, fold_noteName_In in Hk. destruct Hk as [[]|Hk].
  apply in_map_iff in Hk. destruct Hk as [inv [<- _]].
  apply typeName_not_index.
Qed.

Lemma chart_names invs :
  map fst (chartData invs)
  = firstOccurrences (map (fun inv => typeName (type inv)) invs).
Proof. rewrite chart_entries, chart_keys. reflexivity. Qed.

(** X6. The chart has one slice per investment type present in the
    collection, in order of first appearance: the names are pairwise
    distinct, each is the name of the type of some position, and there are at
    most three slices (and none for an empty collection). *)
Theorem chart_slices (invs : list Investment) :
  map fst (chartData invs)
  = firstOccurrences (map (fun inv => typeName (type inv)) invs)
  /\ NoDup (map fst (chartData invs))
  /\ (forall k, In k (map fst (chartData invs))
                <-> exists inv, In inv invs /\ typeName (type inv) = k)
  /\ (List.length (chartData invs) <= 3)%nat
  /\ chartData [] = [].
Proof.
  assert (Hnd : NoDup (map fst (chartData invs))).
  { rewrite chart_names. apply fold_noteName_NoDup. constructor. }
  assert (Hin : forall k, In k (map fst (chartData invs))
                          <-> exists inv, In inv invs /\ typeName (type inv) = k).
  { intros k. rewrite chart_names. unfold firstOccurrences.
    rewrite fold_noteName_In, in_map_iff. cbn [In].
    split; [intros [[]|(inv & E & H)]|intros (inv & H & E)]; eauto. }
  split; [apply chart_names|]. split; [exact Hnd|]. split; [exact Hin|].
  split; [|reflexivity].
  rewrite <- (List.length_map fst).
  change 3%nat with (List.length ["CDI"; "IPCA+"; "Prefixado"]%string).
  apply NoDup_incl_length; [exact Hnd|].
  intros k Hk. apply Hin in Hk. destruct Hk as (inv & _ & <-).
  destruct (type inv); cbn; auto.
Qed.

(** ** Sorting with a comparator *)

Section SortedBy.

Context {A : Type} (comparefn : A -> A -> number).
Variable le : A -> A -> Prop.
Variable ok : A -> Prop.

Hypothesis le_trans : forall x y z, le x y -> le y z -> le x z.
Hypothesis after : forall x y,
    ok x -> ok y -> Arr.sign (comparefn x y) = Gt -> le y x.
Hypothesis before : forall x y,
    ok x -> ok y -> Arr.sign (comparefn x y) <> Gt -> le x y.

Lemma insert_sorted_by x l :
  ok x -> Forall ok l ->
  StronglySorted le l -> StronglySorted le (Arr.insert comparefn x l).
Proof.
  intros Hx Hl Hs. induction Hs as [|y l Hs IH Hy]; cbn [Arr.insert].
  - repeat constructor.
  - inversion Hl as [|? ? Hoy Hol]; subst.
    destruct (Arr.sign (comparefn x y)) eqn:E.
    + assert (Hle : le x y) by (apply before; congruence).
      constructor; [constructor; assumption|].
      constructor; [exact Hle|].
      eapply Forall_impl; [|exact Hy]. intros z Hz. eapply le_trans; eassumption.
    + assert (Hle : le x y) by (apply before; congruence).
      constructor; [constructor; assumption|].
      constructor; [exact Hle|].
      eapply Forall_impl; [|exact Hy]. intros z Hz. eapply le_trans; eassumption.
    + constructor; [exact (IH Hol)|].
      apply (Permutation_Forall (x := x :: l)).
      * symmetry. apply insert_perm.
      * constructor; [|exact Hy]. apply after; assumption.
Qed.

Lemma sort_sorted_by l :
  Forall ok l -> StronglySorted le (Arr.sort comparefn l).
Proof.
  induction 1 as [|x l Hx Hl IH]; cbn [Arr.sort fold_right]; [constructor|].
  apply insert_sorted_by; [exact Hx| |exact IH].
  apply (Permutation_Forall (x := l)); [symmetry; apply sort_perm|exact Hl].
Qed.

End SortedBy.

Lemma string_leb_trans s t u :
  String.leb s t = true -> String.leb t u = true -> String.leb s u = true.
Proof.
  unfold String.leb. revert t u.
  induction s as [|c s IH]; intros [|d t] [|e u]; cbn [String.compare];
    try reflexivity; try discriminate.
  unfold Ascii.compare.
  destruct (N.compare_spec (N_of_ascii c) (N_of_ascii d)) as [Hcd|Hcd|Hcd];
    destruct (N.compare_spec (N_of_ascii d) (N_of_ascii e)) as [Hde|Hde|Hde];
    destruct (N.compare_spec (N_of_ascii c) (N_of_ascii e)) as [Hce|Hce|Hce];
    intros H1 H2; try discriminate; try reflexivity; try lia.
  exact (IH t u H1 H2).
Qed.

Lemma string_ltb_leb s t : String.ltb s t = true -> String.leb s t = true.
Proof.
  unfold String.ltb, String.leb. destruct (String.compare s t); congruence.
Qed.

Lemma string_not_ltb_leb s t : String.ltb t s = false -> String.leb s t = true.
Proof.
  unfold String.ltb, String.leb. rewrite (String.compare_antisym s t).
  destruct (String.compare t s); cbn; congruence.
Qed.

(** ** The next due date and the sorted table *)

Section DatedFacts.

Variable dateTime : string -> number.

Lemma byDueDate_sign a b x y :
  dueTime dateTime x = Fin a -> dueTime dateTime y = Fin b ->
  (Arr.sign (byDueDate dateTime x y) = Gt -> b <= a)
  /\ (Arr.sign (byDueDate dateTime x y) <> Gt -> a <= b).
Proof.
  unfold byDueDate, dueTime. intros -> ->. cbn [sub Arr.sign].
  rewrite <- Qgt_alt. split; intros H; [lra|].
  apply Qnot_lt_le. intros C. apply H. lra.
Qed.

Lemma byDueDate_sorted invs :
  Forall (fun inv => isFinite (dueTime dateTime inv)) invs ->
  StronglySorted
    (fun a b => value (dueTime dateTime a) <= value (dueTime dateTime b))
    (Arr.sort (byDueDate dateTime) invs).
Proof.
  apply sort_sorted_by.
  - intros x y z Hxy Hyz. lra.
  - intros x y [a Ha] [b Hb] H.
    destruct (byDueDate_sign a b x y Ha Hb) as [Hgt _].
    rewrite Ha, Hb. cbn [value]. exact (Hgt H).
  - intros x y [a Ha] [b Hb] H.
    destruct (byDueDate_sign a b x y Ha Hb) as [_ Hle].
    rewrite Ha, Hb. cbn [value]. exact (Hle H).
Qed.

(** X8. The next due date of the dashboard is absent exactly when there is
    no position.  When every due date is a valid date, it is the due date of
    a position of the collection that no other position precedes in time. *)
Theorem next_due_date (invs : list Investment) :
  (nextDueDate dateTime invs = None <-> invs = [])
  /\ (Forall (fun inv => isFinite (dueTime dateTime inv)) invs ->
      forall d,
        nextDueDate dateTime invs = Some d ->
        exists inv,
          In inv invs /\ dueDate inv = d
          /\ forall other,
               In other invs ->
               value (dueTime dateTime inv) <= value (dueTime dateTime other)).
Proof.
  unfold nextDueDate.
  pose proof (sort_perm (byDueDate dateTime) invs) as Hperm.
  split.
  - destruct invs as [|i invs]; [split; reflexivity|].
    cbn [List.length Nat.ltb Nat.leb].
    destruct (Arr.sort (byDueDate dateTime) (i :: invs)) as [|f rest] eqn:E.
    + apply Permutation_length in Hperm. discriminate Hperm.
    + split; discriminate.
  - intros Hok d. pose proof (byDueDate_sorted invs Hok) as Hs.
    destruct (0 <? List.length invs)%nat; [|discriminate].
    destruct (Arr.sort (byDueDate dateTime) invs) as [|f rest];
      [discriminate|].
    intros E. inversion E; subst d. exists f.
    split; [apply (Permutation_in _ Hperm); left; reflexivity|].
    split; [reflexivity|].
    intros other Hin. symmetry in Hperm.
    apply (Permutation_in _ Hperm) in Hin.
    inversion Hs as [|? ? _ Hall]; subst.
    destruct Hin as [<-|Hin]; [lra|].
    rewrite Forall_forall in Hall. exact (Hall _ Hin).
Qed.

Lemma ordering_sign dir a b :
  let v := ordering dir (lt (Fin a) (Fin b)) (gt (Fin a) (Fin b)) in
  (Arr.sign v = Gt -> match dir with Asc => b <= a | Desc => a <= b end)
  /\ (Arr.sign v <> Gt -> match dir with Asc => a <= b | Desc => b <= a end).
Proof.
  unfold ordering, lt.
  destruct (gt (Fin b) (Fin a)) eqn:L; destruct (gt (Fin a) (Fin b)) eqn:G;
    repeat match goal with
           | H : gt _ _ = true |- _ => apply gt_Fin in H
           | H : gt _ _ = false |- _ => apply gt_Fin_false in H
           end;
    destruct dir; cbn; split; intros H; try lra; try discriminate;
    try (exfalso; apply H; reflexivity).
Qed.

Lemma ordering_strings dir s t :
  let v := ordering dir (String.ltb s t) (String.ltb t s) in
  (Arr.sign v = Gt ->
   match dir with
   | Asc => String.leb t s = true
   | Desc => String.leb s t = true
   end)
  /\ (Arr.sign v <> Gt ->
      match dir with
      | Asc => String.leb s t = true
      | Desc => String.leb t s = true
      end).
Proof.
  unfold ordering.
  destruct (String.ltb s t) eqn:L; destruct (String.ltb t s) eqn:G;
    destruct dir; cbn; split; intros H; try discriminate;
    try (exfalso; apply H; reflexivity);
    auto using string_ltb_leb, string_not_ltb_leb.
Qed.

Lemma inOrder_trans field dir x y z :
  inOrder dateTime field dir x y -> inOrder dateTime field dir y z ->
  inOrder dateTime field dir x z.
Proof.
  destruct dir, field; cbn [inOrder keyLe]; intros H1 H2;
    first [lra | eapply string_leb_trans; eassumption].
Qed.

Lemma compareBy_sign field dir x y :
  rankable dateTime field x -> rankable dateTime field y ->
  (Arr.sign (compareBy dateTime field dir x y) = Gt ->
   inOrder dateTime field dir y x)
  /\ (Arr.sign (compareBy dateTime field dir x y) <> Gt ->
      inOrder dateTime field dir x y).
Proof.
  destruct field; cbn [rankable rank compareBy].
  - intros _ _.
    pose proof (ordering_strings dir (toLowerCase (bank x))
                                 (toLowerCase (bank y))) as H.
    destruct dir; exact H.
  - intros [a Ha] [b Hb]. pose proof (ordering_sign dir a b) as H.
    destruct dir; cbn [inOrder keyLe rank]; rewrite Ha, Hb; exact H.
  - intros [a Ha] [b Hb]. pose proof (ordering_sign dir a b) as H.
    destruct dir; cbn [inOrder keyLe rank]; rewrite Ha, Hb; exact H.
  - intros [a Ha] [b Hb]. pose proof (ordering_sign dir a b) as H.
    destruct dir; cbn [inOrder keyLe rank]; rewrite Ha, Hb; exact H.
  - intros [a Ha] [b Hb]. pose proof (ordering_sign dir a b) as H.
    destruct dir; cbn [inOrder keyLe rank]; rewrite Ha, Hb; exact H.
Qed.

(** X9. The table shows the positions of the collection, each exactly once,
    whatever the column and the direction.  When every position can be ranked
    in the column (finite numbers, valid dates), the rows are in the order of
    the column: ascending or descending by number or by time, or by bank name
    compared in lower case. *)
Theorem table_sorted (field : SortField) (dir : SortDirection)
        (invs : list Investment) :
  Permutation (sortedInvestments dateTime field dir invs) invs
  /\ (Forall (rankable dateTime field) invs ->
      StronglySorted (inOrder dateTime field dir)
                     (sortedInvestments dateTime field dir invs)).
Proof.
  split; [apply sort_perm|]. unfold sortedInvestments.
  apply (sort_sorted_by (compareBy dateTime field dir)
                        (inOrder dateTime field dir)
                        (rankable dateTime field)).
  - apply inOrder_trans.
  - intros x y Hx Hy. apply (compareBy_sign field dir x y Hx Hy).
  - intros x y Hx Hy. apply (compareBy_sign field dir x y Hx Hy).
Qed.

End DatedFacts.

Lemma next_due_date_witness :
  let invs := [position "a" "Banco X" "2026-01-01" 1000 1100;
               position "b" "Outro" "2025-01-01" 500 520] in
  Forall (fun inv => isFinite (dueTime sampleTime inv)) invs
  /\ nextDueDate sampleTime invs = Some "2025-01-01"%string
  /\ exists inv,
       In inv invs /\ dueDate inv = "2025-01-01"%string
       /\ forall other,
            In other invs ->
            value (dueTime sampleTime inv) <= value (dueTime sampleTime other).
Proof.
  intros invs.
  assert (H : Forall (fun inv => isFinite (dueTime sampleTime inv)) invs)
    by (repeat constructor; eexists; reflexivity).
  split; [exact H|]. split; [reflexivity|].
  exact (proj2 (next_due_date sampleTime invs) H _ eq_refl).
Defined.

Lemma table_sorted_witness :
  let invs := [position "a" "Banco X" "2026-01-01" 1000 1100;
               position "b" "Outro" "2025-01-01" 500 520] in
  Forall (rankable sampleTime ByDueDate) invs
  /\ StronglySorted (inOrder sampleTime ByDueDate Asc)
                    (sortedInvestments sampleTime ByDueDate Asc invs).
Proof.
  intros invs.
  assert (H : Forall (rankable sampleTime ByDueDate) invs)
    by (repeat constructor; eexists; reflexivity).
  split; [exact H|].
  exact (proj2 (table_sorted sampleTime ByDueDate Asc invs) H).
Defined.


(** ** Adding, updating and deleting *)

Section HandlerFacts.

Import Handlers.

(** X11. A deletion that is declined, or that the store refuses, leaves the
    view as it is.  A confirmed, successful deletion removes every position
    carrying the id and nothing else, keeps the others in order and leaves
    an edition in progress open. *)
Theorem delete_position (k : string) (v : View) :
  (forall success, handleDeleteInvestment false success k v = v)
  /\ handleDeleteInvestment true false k v = v
  /\ items (handleDeleteInvestment true true k v)
     = filter (fun i => negb (hasId k i)) (items v)
  /\ (forall i,
        In i (items (handleDeleteInvestment true true k v))
        <-> In i (items v) /\ id i <> k)
  /\ editingInvestment (handleDeleteInvestment true true k v)
     = editingInvestment v.
Proof.
  split; [reflexivity|]. split; [reflexivity|].
  cbn [handleDeleteInvestment items editingInvestment].
  split; [reflexivity|]. split; [|reflexivity].
  intros i. rewrite filter_In.
  destruct (String.eqb_spec (id i) k); cbn [negb]; intuition congruence.
Qed.

Lemma replaceById_id u i : id (replaceById u i) = id i.
Proof.
  unfold replaceById. destruct (String.eqb_spec (id i) (id u)); congruence.
Qed.

(** X12. An update keeps the number, the order and the ids of the positions:
    the positions carrying the id of the updated one are replaced by it and
    the others stay as they are, so that an id unknown to the collection
    changes nothing.  Cancelling the edition or a refusal of the store
    leaves the positions untouched. *)
Theorem update_position (inv u : Investment) (v : View) :
  let v' := handleUpdateInvestment (Some inv) (Some u) v in
  map id (items v') = map id (items v)
  /\ (forall n i,
        nth_error (items v) n = Some i ->
        nth_error (items v') n
        = Some (if String.eqb (id i) (id u) then u else i))
  /\ ((forall i, In i (items v) -> id i <> id u) -> items v' = items v)
  /\ editingInvestment v' = None
  /\ items (handleUpdateInvestment (Some inv) None v) = items v
  /\ forall updated, items (handleUpdateInvestment None updated v) = items v.
Proof.
  cbn [handleUpdateInvestment items editingInvestment].
  split; [|split; [|split; [|repeat split]]].
  - rewrite map_map. apply map_ext. apply replaceById_id.
  - intros n i H. rewrite nth_error_map, H. reflexivity.
  - intros H. rewrite <- (map_id (items v)) at 2. apply map_ext_in.
    intros i Hi. unfold replaceById.
    destruct (String.eqb_spec (id i) (id u)) as [E|_]; [|reflexivity].
    destruct (H i Hi E).
Qed.

Lemma filter_fresh k (l : list Investment) :
  ~ In k (map id l) -> filter (fun i => negb (String.eqb (id i) k)) l = l.
Proof.
  intros H. apply filter_all. intros i Hi.
  destruct (String.eqb_spec (id i) k) as [E|_]; [|reflexivity].
  exfalso. apply H. rewrite <- E. apply in_map, Hi.
Qed.

Lemma filter_NoDup_ids (f : Investment -> bool) l :
  NoDup (map id l) -> NoDup (map id (filter f l)).
Proof.
  induction l as [|i l IH]; cbn [filter map]; intros Hnd; [constructor|].
  inversion Hnd as [|? ? Hi Hl]; subst.
  destruct (f i); cbn [map]; [|exact (IH Hl)].
  constructor; [|exact (IH Hl)].
  intros C. apply Hi. apply in_map_iff in C. destruct C as [j [E Hj]].
  apply filter_In in Hj. rewrite <- E. apply in_map, Hj.
Qed.

(** X13. In a collection whose ids are pairwise distinct, adding a position
    saved under a new id puts it last and keeps the ids distinct, as do
    updates and deletions; deleting the position just added gives the
    collection back. *)
Theorem ids_stay_unique (s : Investment) (v : View) :
  NoDup (map id (items v)) ->
  ~ In (id s) (map id (items v)) ->
  items (handleAddInvestment (Some s) v) = items v ++ [s]
  /\ NoDup (map id (items (handleAddInvestment (Some s) v)))
  /\ (forall inv u,
        NoDup (map id (items (handleUpdateInvestment (Some inv) (Some u) v))))
  /\ (forall k, NoDup (map id (items (handleDeleteInvestment true true k v))))
  /\ items (handleDeleteInvestment true true (id s)
              (handleAddInvestment (Some s) v))
     = items v
  /\ items (handleAddInvestment None v) = items v.
Proof.
  intros Hnd Hfresh. cbn [handleAddInvestment handleDeleteInvestment items].
  split; [reflexivity|]. split; [|split; [|split; [|split]]].
  - rewrite map_app. cbn [map]. apply NoDup_app; [exact Hnd| |].
    + repeat constructor. intros [].
    + intros x Hx [<-|[]]. exact (Hfresh Hx).
  - intros inv u. cbn [handleUpdateInvestment items].
    rewrite map_map, (map_ext _ id (replaceById_id u)). exact Hnd.
  - intros k. apply filter_NoDup_ids, Hnd.
  - rewrite filter_app. cbn [filter]. rewrite String.eqb_refl. cbn [negb].
    rewrite filter_fresh by exact Hfresh. apply app_nil_r.
  - reflexivity.
Qed.

End HandlerFacts.

Lemma ids_stay_unique_witness :
  let v := Handlers.mkView [position "a" "Banco X" "2026-01-01" 1000 1100]
                           None false Handlers.Dashboard in
  let s := position "b" "Outro" "2025-01-01" 500 520 in
  NoDup (map id (Handlers.items v))
  /\ ~ In (id s) (map id (Handlers.items v))
  /\ Handlers.items
       (Handlers.handleDeleteInvestment true true (id s)
          (Handlers.handleAddInvestment (Some s) v))
     = Handlers.items v.
Proof.
  intros v s.
  assert (Hnd : NoDup (map id (Handlers.items v)))
    by (repeat constructor; intros []).
  assert (Hfresh : ~ In (id s) (map id (Handlers.items v)))
    by (intros [C|[]]; discriminate C).
  split; [exact Hnd|]. split; [exact Hfresh|].
  destruct (ids_stay_unique s v Hnd Hfresh) as (_ & _ & _ & _ & H & _).
  exact H.
Defined.

(** ** The recompute and the views *)

Lemma terms_fields a b :
  terms a = terms b ->
  id a = id b /\ bank a = bank b /\ type a = type b /\ amount a = amount b.
Proof. unfold terms. intros H. inversion H. repeat split; congruence. Qed.

Lemma cons_eq_inv {B} (x y : B) l l' : x :: l = y :: l' -> x = y /\ l = l'.
Proof. intros H. injection H as -> ->. split; reflexivity. Qed.

Lemma map_via_terms {B} (g : Investment -> B) l l' :
  (forall a b, terms a = terms b -> g a = g b) ->
  map terms l' = map terms l -> map g l' = map g l.
Proof.
  intros Hg. revert l'. induction l as [|a l IH]; intros [|b l'] H;
    try discriminate; [reflexivity|].
  cbn [map] in *. apply cons_eq_inv in H.
  destruct H as [Hab Hl]. f_equal; [apply Hg; assumption|].
  apply IH. assumption.
Qed.

Lemma fold_via_terms {S} (f : S -> Investment -> S) l l' :
  (forall o a b, terms a = terms b -> f o a = f o b) ->
  map terms l' = map terms l ->
  forall o, fold_left f l' o = fold_left f l o.
Proof.
  intros Hf. revert l'. induction l as [|a l IH]; intros [|b l'] H o;
    try discriminate; [reflexivity|].
  cbn [map fold_left] in *. apply cons_eq_inv in H.
  destruct H as [Hab Hl].
  rewrite (Hf o b a) by assumption. apply IH. assumption.
Qed.

Section RecomputeViews.

Variable calculateFutureValue : Investment -> MarketRates -> CalculationResult.

Lemma updated_terms newRates invs :
  map terms (updatedInvestments calculateFutureValue newRates invs)
  = map terms invs.
Proof.
  unfold updatedInvestments. rewrite map_map. apply map_ext.
  intros inv. apply recalculated_terms.
Qed.

(** X14. A change of the market rates leaves alone everything that does not
    come from the projected values: the ids, the institutions of the
    exposure report and the order in which their buckets are created, the
    invested total and the chart; the rates of the view are the new ones. *)
Theorem recompute_keeps_views (newRates : MarketRates) (st : AppState) :
  let st' := handleMarketRatesChange calculateFutureValue newRates st in
  map id (investments st') = map id (investments st)
  /\ map fst (exposureByBank (investments st'))
     = map fst (exposureByBank (investments st))
  /\ (forall k, In k (map fst (fgcExposure (investments st')))
                <-> In k (map fst (fgcExposure (investments st))))
  /\ totalInvested (investments st') = totalInvested (investments st)
  /\ chartData (investments st') = chartData (investments st)
  /\ marketRates st' = newRates.
Proof.
  cbn [handleMarketRatesChange investments marketRates].
  pose proof (updated_terms newRates (investments st)) as Ht.
  assert (Hb : map bankName
                   (updatedInvestments calculateFutureValue newRates
                                       (investments st))
               = map bankName (investments st)).
  { apply map_via_terms; [|exact Ht]. intros a b H.
    unfold bankName. destruct (terms_fields a b H) as (_ & -> & _). reflexivity. }
  split; [|split; [|split; [|split; [|split]]]].
  - apply map_via_terms; [|exact Ht]. intros a b H. apply (terms_fields a b H).
  - unfold exposureByBank. rewrite !exposure_keys, Hb. reflexivity.
  - intros k. rewrite !fgcExposure_names, Hb. reflexivity.
  - unfold totalInvested. apply fold_via_terms; [|exact Ht].
    intros o a b H. destruct (terms_fields a b H) as (_ & _ & _ & ->).
    reflexivity.
  - unfold chartData. f_equal. apply fold_via_terms; [|exact Ht].
    intros o a b H. unfold addAmount.
    destruct (terms_fields a b H) as (_ & _ & -> & ->). reflexivity.
  - reflexivity.
Qed.

(** X15. When the projection of a position reads its terms only, not the
    projected values stored with it, recomputing twice with the same rates
    gives what recomputing once gives. *)
Theorem recompute_idempotent (newRates : MarketRates)
        (invs : list Investment) :
  (forall a b, terms a = terms b ->
               calculateFutureValue a newRates = calculateFutureValue b newRates) ->
  updatedInvestments calculateFutureValue newRates
    (updatedInvestments calculateFutureValue newRates invs)
  = updatedInvestments calculateFutureValue newRates invs.
Proof.
  intros Hcalc. unfold updatedInvestments. rewrite map_map.
  apply map_ext. intros inv. unfold recalculated at 1.
  rewrite (Hcalc _ inv (recalculated_terms calculateFutureValue newRates inv)).
  reflexivity.
Qed.

End RecomputeViews.

Lemma recompute_idempotent_witness :
  let calc := fun (inv : Investment) (_ : MarketRates) =>
                {| gross := amount inv; net := amount inv |} in
  let rates := {| cdi := Fin 12; ipca := Fin 4 |} in
  let invs := [position "a" "Banco X" "2026-01-01" 1000 1100] in
  (forall a b, terms a = terms b -> calc a rates = calc b rates)
  /\ updatedInvestments calc rates (updatedInvestments calc rates invs)
     = updatedInvestments calc rates invs.
Proof.
  intros calc rates invs.
  assert (H : forall a b, terms a = terms b -> calc a rates = calc b rates).
  { intros a b E. unfold calc.
    destruct (terms_fields a b E) as (_ & _ & _ & ->). reflexivity. }
  split; [exact H|].
  exact (recompute_idempotent calc rates invs H).
Defined.

(** ** Rows and positions *)

Section PersistenceFacts.

Import Service Persistence.

Variable StringToNumber : string -> number.
Variable toISOString : number -> option string.
Variable dateTime : string -> number.

Lemma toSnakeCase_Some inv r :
  toSnakeCase toISOString inv = Some r ->
  toISOString (createdAt inv) = Some (row_created_at r)
  /\ toCamelCase StringToNumber dateTime r
     = withCreatedAt (dateTime (row_created_at r)) inv.
Proof.
  unfold toSnakeCase. destruct (toISOString (createdAt inv)) as [iso|];
    [|discriminate].
  intros H. inversion H. subst r. split; reflexivity.
Qed.

(** X16. A position written as a row and read back is the same position:
    every field survives, numbers included even when they are [NaN], but for
    the creation time, which comes back as the time of the ISO string it was
    written as; when that is the original time the position is identical.
    The row is not produced at all when the creation time is not a valid
    date. *)
Theorem row_round_trip (inv : Investment) (r : InvestmentRow) :
  toSnakeCase toISOString inv = Some r ->
  toISOString (createdAt inv) = Some (row_created_at r)
  /\ toCamelCase StringToNumber dateTime r
     = withCreatedAt (dateTime (row_created_at r)) inv
  /\ (dateTime (row_created_at r) = createdAt inv ->
      toCamelCase StringToNumber dateTime r = inv)
  /\ (forall other,
        toSnakeCase toISOString other = None
        <-> toISOString (createdAt other) = None).
Proof.
  intros H. destruct (toSnakeCase_Some inv r H) as [Hiso Hback].
  split; [exact Hiso|]. split; [exact Hback|]. split.
  - intros Ht. rewrite Hback, Ht. destruct inv. reflexivity.
  - intros other. unfold toSnakeCase.
    destruct (toISOString (createdAt other)); split; congruence.
Qed.

(** X17. Reading the positions never fails: an error of the store or a
    missing result gives the empty collection, and otherwise every row
    gives one position, in the order of the rows.  Rows written from a
    collection are read back as that collection, position by position. *)
Theorem fetch_investments (resp : RowsResponse) :
  (rowsError resp <> None \/ rows resp = None ->
   fetchInvestments StringToNumber dateTime resp = Resolved [])
  /\ (forall data,
        rowsError resp = None -> rows resp = Some data ->
        fetchInvestments StringToNumber dateTime resp
        = Resolved (map (toCamelCase StringToNumber dateTime) data))
  /\ (forall invs data,
        Forall2 (fun inv r => toSnakeCase toISOString inv = Some r) invs data ->
        exists back,
          fetchInvestments StringToNumber dateTime
                           {| rows := Some data; rowsError := None |}
          = Resolved back
          /\ Forall2 (fun inv inv' =>
                        exists iso,
                          toISOString (createdAt inv) = Some iso
                          /\ inv' = withCreatedAt (dateTime iso) inv)
                     invs back).
Proof.
  unfold fetchInvestments. split; [|split].
  - destruct resp as [[data|] [e|]]; cbn [rows rowsError isSet];
      intros [H|H]; congruence.
  - intros data -> ->. reflexivity.
  - intros invs data H. cbn [rows rowsError isSet]. eexists.
    split; [reflexivity|].
    induction H as [|inv r invs data Hr _ IH]; cbn [map]; constructor;
      [|exact IH].
    destruct (toSnakeCase_Some inv r Hr) as [Hiso Hback].
    exists (row_created_at r). split; assumption.
Qed.

End PersistenceFacts.

Lemma row_round_trip_witness :
  let inv := position "a" "Banco X" "2026-01-01" 1000 1100 in
  exists r,
    Persistence.toSnakeCase sampleISO inv = Some r
    /\ Persistence.toCamelCase (fun _ => NaN) sampleTime r = inv.
Proof.
  intros inv. eexists. split; [reflexivity|].
  refine (proj1 (proj2 (proj2
            (row_round_trip (fun _ => NaN) sampleISO sampleTime inv _ eq_refl)))
            _).
  reflexivity.
Defined.

(** ** Submitting the form *)

Section FormFacts.

Variable editing : option Investment.
Variable fvPreview : CalculationResult.
Variable randomUUID : string.
Variable now : number.

Lemma truthy_false x :
  truthy x = false <-> x = NaN \/ exists q, x = Fin q /\ q == 0.
Proof.
  destruct x as [q|]; cbn [truthy].
  - destruct (Qeq_bool q 0) eqn:E; cbn [negb].
    + apply Qeq_bool_iff in E. split; [|reflexivity].
      intros _. right. exists q. split; [reflexivity|exact E].
    + split; [discriminate|]. intros [C|[q' [Hq Hz]]]; [discriminate|].
      inversion Hq; subst q'. apply Qeq_bool_iff in Hz. congruence.
  - split; [left|]; reflexivity.
Qed.

Lemma nonEmpty_false s : Form.nonEmpty s = false <-> s = EmptyString.
Proof.
  unfold Form.nonEmpty. destruct (String.eqb_spec s EmptyString); cbn [negb];
    split; congruence.
Qed.

(** X18. The form submits nothing exactly when the broker or the bank is
    empty or the amount is 0 or [NaN]; any other amount goes through, a
    negative one included.  What is submitted carries the form's broker,
    bank and amount and, as its gross and net projected values, the two
    values of the preview. *)
Theorem submit_guard (formData : Form.FormData) :
  (Form.handleSubmit editing fvPreview randomUUID now formData = None
   <-> Form.broker formData = EmptyString
       \/ Form.bank formData = EmptyString
       \/ Form.amount formData = NaN
       \/ exists q, Form.amount formData = Fin q /\ q == 0)
  /\ (forall s,
        Form.handleSubmit editing fvPreview randomUUID now formData = Some s ->
        broker (payload s) = Form.broker formData
        /\ bank (payload s) = Form.bank formData
        /\ amount (payload s) = Form.amount formData
        /\ futureValue (payload s) = gross fvPreview
        /\ netFutureValue (payload s) = net fvPreview
        /\ broker (payload s) <> EmptyString
        /\ bank (payload s) <> EmptyString
        /\ truthy (amount (payload s)) = true).
Proof.
  unfold Form.handleSubmit.
  destruct (Form.nonEmpty (Form.broker formData)) eqn:Eb;
    [|apply nonEmpty_false in Eb; cbn [negb orb]; split;
      [split; auto|discriminate]].
  destruct (Form.nonEmpty (Form.bank formData)) eqn:Ek;
    [|apply nonEmpty_false in Ek; cbn [negb orb]; split;
      [split; auto|discriminate]].
  destruct (truthy (Form.amount formData)) eqn:Ea;
    [|pose proof (proj1 (truthy_false _) Ea) as Hz; cbn [negb orb]; split;
      [split; [intros _; tauto|reflexivity]|discriminate]].
  cbn [negb orb].
  assert (Hb : Form.broker formData <> EmptyString)
    by (intros C; apply nonEmpty_false in C; congruence).
  assert (Hk : Form.bank formData <> EmptyString)
    by (intros C; apply nonEmpty_false in C; congruence).
  split.
  - split; [destruct editing; discriminate|].
    intros [C|[C|C]]; [contradiction|contradiction|].
    apply truthy_false in C. congruence.
  - intros s Hs. destruct editing; inversion Hs; subst s; cbn [payload];
      repeat split; assumption.
Qed.

(** X19. A submission made while a position is being edited is always an
    update that carries the id and the creation time of that position, never
    a new id; otherwise it is an addition under the fresh id and the current
    time. *)
Theorem submit_identity (formData : Form.FormData) (s : Form.Submission) :
  Form.handleSubmit editing fvPreview randomUUID now formData = Some s ->
  match editing with
  | Some e =>
      s = Form.onUpdate (payload s)
      /\ id (payload s) = id e /\ createdAt (payload s) = createdAt e
  | None =>
      s = Form.onAdd (payload s)
      /\ id (payload s) = randomUUID /\ createdAt (payload s) = now
  end.
Proof.
  unfold Form.handleSubmit.
  destruct (negb _ || negb _ || negb _); [discriminate|].
  destruct editing; intros H; inversion H; subst s; cbn [payload];
    repeat split.
Qed.

End FormFacts.

Lemma submit_guard_witness :
  exists s,
    Form.handleSubmit None (mkResult (Fin 10) (Fin 9)) "uuid" (Fin 0)
                      sampleForm = Some s
    /\ amount (payload s) = Fin (-500)
    /\ futureValue (payload s) = Fin 10.
Proof.
  eexists. split; [reflexivity|].
  destruct (proj2 (submit_guard None (mkResult (Fin 10) (Fin 9)) "uuid"
                                (Fin 0) sampleForm) _ eq_refl)
    as (_ & _ & Ha & Hg & _).
  split; [exact Ha|exact Hg].
Defined.

Lemma submit_identity_witness :
  let e := position "a" "Banco X" "2026-01-01" 1000 1100 in
  exists s,
    Form.handleSubmit (Some e) (mkResult (Fin 10) (Fin 9)) "uuid" (Fin 7)
                      sampleForm = Some s
    /\ s = Form.onUpdate (payload s)
    /\ id (payload s) = id e /\ createdAt (payload s) = createdAt e.
Proof.
  intros e. eexists. split; [reflexivity|].
  exact (submit_identity (Some e) (mkResult (Fin 10) (Fin 9)) "uuid" (Fin 7)
                         sampleForm _ eq_refl).
Defined.

(** ** A save the store refuses *)

(** X21. When the store answers a save with an error or without a row, the
    service yields null and the handlers leave the positions as they were
    (an edition in progress stays open); when it answers with a row, the
    position read from that row is what is added last or put in place of
    the positions carrying its id. *)
Theorem refused_save_changes_nothing
        (StringToNumber : string -> number) (dateTime : string -> number)
        (resp : Persistence.RowResponse) (v : Handlers.View) :
  let saved := Persistence.savedInvestment StringToNumber dateTime resp in
  (Persistence.rowError resp <> None \/ Persistence.row resp = None ->
   saved = None
   /\ Handlers.items (Handlers.handleAddInvestment saved v) = Handlers.items v
   /\ forall inv,
        Handlers.items (Handlers.handleUpdateInvestment (Some inv) saved v)
        = Handlers.items v
        /\ Handlers.editingInvestment
             (Handlers.handleUpdateInvestment (Some inv) saved v)
           = Handlers.editingInvestment v)
  /\ (forall r,
        Persistence.rowError resp = None -> Persistence.row resp = Some r ->
        let p := Persistence.toCamelCase StringToNumber dateTime r in
        saved = Some p
        /\ Handlers.items (Handlers.handleAddInvestment saved v)
           = Handlers.items v ++ [p]
        /\ forall inv,
             Handlers.items (Handlers.handleUpdateInvestment (Some inv) saved v)
             = map (Handlers.replaceById p) (Handlers.items v)).
Proof.
  cbn zeta. unfold Persistence.savedInvestment. split.
  - intros H.
    assert (E : (if Service.isSet (Persistence.rowError resp) then None
                 else match Persistence.row resp with
                      | Some data =>
                          Some (Persistence.toCamelCase StringToNumber
                                                        dateTime data)
                      | None => None
                      end) = None).
    { destruct resp as [[r|] [e|]]; cbn in *; try reflexivity.
      destruct H; congruence. }
    rewrite E. repeat split.
  - intros r He Hr. rewrite He, Hr. cbn [Service.isSet]. repeat split.
Qed.

(** * The aggregation in binary64 *)

Module Binary64Facts.

Import Binary64.

(** ** Dictionaries *)

Lemma b64_get_set_same o k v : get (set o k v) k = Some v.
Proof.
  induction o as [|[k' v'] o IH]; cbn [set get].
  - rewrite String.eqb_refl. reflexivity.
  - destruct (String.eqb k' k) eqn:E; cbn [get]; rewrite E;
      [reflexivity|exact IH].
Qed.

Lemma b64_get_set_other o k v k' : k' <> k -> get (set o k v) k' = get o k'.
Proof.
  intros Hne. induction o as [|[k0 v0] o IH]; cbn [set get].
  - destruct (String.eqb_spec k k'); [congruence|reflexivity].
  - destruct (String.eqb_spec k0 k) as [->|Hk0]; cbn [get].
    + destruct (String.eqb_spec k k'); [congruence|reflexivity].
    + rewrite IH. reflexivity.
Qed.

Lemma b64_keys_set o k v : map fst (set o k v) = noteName (map fst o) k.
Proof.
  unfold noteName.
  induction o as [|[k' v'] o IH]; cbn [set map fst existsb app].
  - reflexivity.
  - destruct (String.eqb k' k) eqn:E; cbn [orb map fst].
    + reflexivity.
    + rewrite IH. destruct (existsb _ (map fst o)); reflexivity.
Qed.

Lemma b64_get_In o k v : NoDup (map fst o) -> In (k, v) o -> get o k = Some v.
Proof.
  induction o as [|[k' v'] o IH]; cbn [map fst get]; intros Hnd Hin.
  - destruct Hin.
  - inversion Hnd as [|? ? Hnot Hnd']; subst.
    destruct Hin as [E|Hin].
    + inversion E; subst. rewrite String.eqb_refl. reflexivity.
    + destruct (String.eqb_spec k' k) as [->|_]; [|exact (IH Hnd' Hin)].
      exfalso. apply Hnot. apply (in_map fst) in Hin. exact Hin.
Qed.

Lemma b64_insertIndex_perm e l : Permutation (insertIndex e l) (e :: l).
Proof.
  induction l as [|e' l IH]; cbn [insertIndex]; [reflexivity|].
  destruct (indexOf e <=? indexOf e')%N; [reflexivity|].
  rewrite IH. apply perm_swap.
Qed.

Lemma b64_entries_perm o : Permutation (entries o) o.
Proof.
  unfold entries.
  assert (H : forall l, Permutation (fold_right insertIndex [] l) l).
  { induction l as [|e l IH]; cbn; [reflexivity|].
    rewrite b64_insertIndex_perm. constructor. exact IH. }
  rewrite H. apply filter_split_perm.
Qed.

Lemma b64_insert_perm x l : Permutation (insert x l) (x :: l).
Proof.
  induction l as [|y l IH]; cbn [insert]; [reflexivity|].
  destruct (sign (byTotalDesc x y)); try reflexivity.
  rewrite IH. apply perm_swap.
Qed.

Lemma b64_sort_perm l : Permutation (sort l) l.
Proof.
  induction l as [|x l IH]; cbn; [reflexivity|].
  rewrite b64_insert_perm. constructor. exact IH.
Qed.

(** ** The buckets *)

Section Buckets.

Variable trim : string -> string.
Variable toUpperCase : string -> string.

Local Abbreviation addExposure := (Binary64.addExposure trim toUpperCase).
Local Abbreviation forEach := (Binary64.forEach trim toUpperCase).
Local Abbreviation exposureByBank := (Binary64.exposureByBank trim toUpperCase).
Local Abbreviation fgcExposure := (Binary64.fgcExposure trim toUpperCase).
Local Abbreviation atBank := (Binary64.atBank trim toUpperCase).


Lemma forEach_get invs o o' k :
  forEach invs o = Some o' ->
  get o' k
  = fold_left bucketStep (map futureValue (filter (atBank k) invs)) (get o k).
Proof.
  revert o. induction invs as [|inv invs IH]; intros o; cbn [forEach filter].
  - intros H. inversion H. reflexivity.
  - unfold Binary64.addExposure, Binary64.atBank.
    destruct (bank inv) as [b|]; [|discriminate].
    intros H. rewrite (IH _ H).
    destruct (String.eqb_spec (toUpperCase (trim b)) k) as [<-|Hne].
    + cbn [map fold_left]. rewrite b64_get_set_same. reflexivity.
    + rewrite b64_get_set_other by congruence. reflexivity.
Qed.

Lemma forEach_keys invs o o' :
  forEach invs o = Some o' ->
  forall k, In k (map fst o')
            <-> In k (map fst o)
                \/ exists inv b, In inv invs /\ bank inv = Some b
                                 /\ toUpperCase (trim b) = k.
Proof.
  revert o. induction invs as [|inv invs IH]; intros o; cbn [forEach].
  - intros H k. inversion H. split; [tauto|].
    intros [H'|(? & ? & [] & _)]. exact H'.
  - unfold Binary64.addExposure. destruct (bank inv) as [b|] eqn:Eb;
      [|discriminate].
    intros H k. rewrite (IH _ H k), b64_keys_set. unfold noteName.
    destruct (existsb _ (map fst o)) eqn:E.
    + apply existsb_eqb_In in E. split.
      * intros [Hk|(i & b' & Hi & Hb & Hn)]; [tauto|].
        right. exists i, b'. split; [right; exact Hi|tauto].
      * intros [Hk|(i & b' & [<-|Hi] & Hb & Hn)]; [tauto| |].
        -- left. rewrite Eb in Hb. inversion Hb; subst b'. rewrite <- Hn.
           exact E.
        -- right. exists i, b'. tauto.
    + rewrite in_app_iff. cbn [In]. split.
      * intros [[Hk|[Hk|[]]]|(i & b' & Hi & Hb & Hn)]; [tauto| |].
        -- right. exists inv, b. split; [left; reflexivity|tauto].
        -- right. exists i, b'. split; [right; exact Hi|tauto].
      * intros [Hk|(i & b' & [<-|Hi] & Hb & Hn)]; [tauto| |].
        -- left. right. left. rewrite Eb in Hb. inversion Hb; subst b'.
           exact Hn.
        -- right. exists i, b'. tauto.
Qed.

Lemma forEach_NoDup invs o o' :
  forEach invs o = Some o' -> NoDup (map fst o) -> NoDup (map fst o').
Proof.
  revert o. induction invs as [|inv invs IH]; intros o; cbn [forEach].
  - intros H. inversion H. trivial.
  - unfold Binary64.addExposure. destruct (bank inv) as [b|]; [|discriminate].
    intros H Hnd. apply (IH _ H). rewrite b64_keys_set.
    apply noteName_NoDup, Hnd.
Qed.

Lemma report_perm invs report :
  fgcExposure invs = Some report ->
  exists banks, exposureByBank invs = Some banks /\ Permutation report banks.
Proof.
  unfold Binary64.fgcExposure.
  destruct (exposureByBank invs) as [banks|]; [|discriminate].
  intros H. inversion H. exists banks. split; [reflexivity|].
  rewrite b64_sort_perm. apply b64_entries_perm.
Qed.

Lemma report_bucket invs report k v :
  fgcExposure invs = Some report ->
  In (k, v) report ->
  bucketSum (map futureValue (filter (atBank k) invs)) = Some v.
Proof.
  intros Hr Hin. destruct (report_perm invs report Hr) as (banks & Hb & Hp).
  apply (Permutation_in _ Hp) in Hin.
  assert (Hnd : NoDup (map fst banks))
    by (apply (forEach_NoDup invs [] banks Hb); constructor).
  rewrite <- (b64_get_In banks k v Hnd Hin).
  rewrite (forEach_get invs [] banks k Hb). reflexivity.
Qed.

Lemma b64_report_names invs report k :
  fgcExposure invs = Some report ->
  In k (map fst report)
  <-> exists inv b, In inv invs /\ bank inv = Some b
                    /\ toUpperCase (trim b) = k.
Proof.
  intros Hr. destruct (report_perm invs report Hr) as (banks & Hb & Hp).
  pose proof (forEach_keys invs [] banks Hb k) as Hk. cbn [map In] in Hk.
  split; intros H.
  - apply (Permutation_in _ (Permutation_map fst Hp)) in H.
    apply Hk in H. destruct H as [[]|H]. exact H.
  - symmetry in Hp. apply (Permutation_in _ (Permutation_map fst Hp)).
    apply Hk. right. exact H.
Qed.

Lemma report_single_bucket invs report k v w :
  fgcExposure invs = Some report ->
  In (k, v) report -> In (k, w) report -> v = w.
Proof.
  intros Hr Hv Hw.
  pose proof (report_bucket invs report k v Hr Hv) as H1.
  pose proof (report_bucket invs report k w Hr Hw) as H2. congruence.
Qed.

End Buckets.

End Binary64Facts.

Module Binary64Sums.

Import Binary64.

(** Adding a number to [0] gives the number back, unless it is [-0]. *)
Lemma add_zero_truthy x : truthy x = true -> PrimFloat.add 0 x = x.
Proof.
  unfold truthy. intros H. apply negb_true_iff, orb_false_iff in H.
  destruct H as [Hz _].
  apply FloatAxioms.Prim2SF_inj. rewrite FloatAxioms.add_spec.
  rewrite FloatAxioms.eqb_spec in Hz.
  change (FloatOps.Prim2SF 0) with (SpecFloat.S754_zero false) in *.
  destruct (FloatOps.Prim2SF x) as [s| | |s m e]; try reflexivity.
  discriminate Hz.
Qed.

Lemma add_zero_orZero v : PrimFloat.add 0 (orZero v) = orZero v.
Proof.
  destruct v as [x|]; cbn [orZero]; [|reflexivity].
  destruct (truthy x) eqn:E; [apply add_zero_truthy, E|reflexivity].
Qed.

Lemma orZero_idempotent v : orZero (Some (orZero v)) = orZero v.
Proof.
  destruct v as [x|]; cbn [orZero]; [|reflexivity].
  destruct (truthy x) eqn:E; [rewrite E|]; reflexivity.
Qed.

Lemma bucketSum_first v l :
  bucketSum (v :: l) = fold_left bucketStep l (Some (orZero (Some v))).
Proof.
  unfold bucketSum. cbn [fold_left].
  replace (bucketStep None v) with (Some (orZero (Some v))); [reflexivity|].
  unfold bucketStep. change (orZero None) with 0%float.
  rewrite add_zero_orZero. reflexivity.
Qed.

Lemma bucketSum_pair v w :
  bucketSum [v; w]
  = Some (PrimFloat.add (orZero (Some v)) (orZero (Some w))).
Proof.
  rewrite bucketSum_first. cbn [fold_left]. unfold bucketStep.
  rewrite orZero_idempotent. reflexivity.
Qed.

Lemma totalFGC_grossSum invs :
  totalFGC invs = grossSum (map futureValue invs).
Proof.
  unfold totalFGC, grossSum. generalize 0%float.
  induction invs as [|inv invs IH]; intros acc; cbn [fold_left map];
    [reflexivity|apply IH].
Qed.

Lemma riskLevel_cases t :
  (riskLevel t = Over <-> PrimFloat.ltb 1000000 t = true)
  /\ (riskLevel t = Warning
      <-> PrimFloat.ltb 800000 t = true /\ PrimFloat.ltb 1000000 t = false)
  /\ (riskLevel t = Safe
      <-> PrimFloat.ltb 800000 t = false /\ PrimFloat.ltb 1000000 t = false).
Proof.
  unfold riskLevel, isGlobalWarning, isGlobalOver, FGC_GLOBAL_LIMIT.
  change (PrimFloat.mul 1000000 0.8) with 800000%float.
  destruct (PrimFloat.ltb 1000000 t); destruct (PrimFloat.ltb 800000 t);
    cbn [andb negb]; repeat split; try discriminate; try reflexivity;
    intros [? ?]; discriminate.
Qed.

End Binary64Sums.

(** C1. Over every position collection the level is decided by the global
    total of the gross projected values, summed in binary64 in the order of
    the collection: [Over] exactly when the total exceeds 1,000,000,
    [Warning] exactly when it exceeds 0.8 x 1,000,000 (which is 800,000
    exactly) without being [Over], and [Safe] otherwise; totals of 1,050,000,
    850,000 and 350,000 are classified [Over], [Warning] and [Safe]. *)
Theorem risk_classification :
  (forall invs,
      let t := Binary64.totalFGC invs in
      t = Binary64.grossSum (map Binary64.futureValue invs)
      /\ (Binary64.globalRisk invs = Over <-> PrimFloat.ltb 1000000 t = true)
      /\ (Binary64.globalRisk invs = Warning
          <-> PrimFloat.ltb 800000 t = true
              /\ PrimFloat.ltb 1000000 t = false)
      /\ (Binary64.globalRisk invs = Safe
          <-> PrimFloat.ltb 800000 t = false
              /\ PrimFloat.ltb 1000000 t = false))
  /\ PrimFloat.mul Binary64.FGC_GLOBAL_LIMIT 0.8 = 800000%float
  /\ Binary64.riskLevel 1050000%float = Over
  /\ Binary64.riskLevel 850000%float = Warning
  /\ Binary64.riskLevel 350000%float = Safe.
Proof.
  split; [|repeat split].
  intros invs t. split; [apply Binary64Sums.totalFGC_grossSum|].
  apply Binary64Sums.riskLevel_cases.
Qed.

(** The collection of section 8, in binary64. *)
Example scenario_three_positions_binary64 :
  let invs := [Binary64.pos (Some "Banco X"%string) 200000%float;
               Binary64.pos (Some "Outro"%string) 50000%float;
               Binary64.pos (Some "banco x "%string) 100000%float] in
  Binary64.fgcExposure Str.trim Str.toUpperCase invs
  = Some [("BANCO X"%string, 300000%float); ("OUTRO"%string, 50000%float)]
  /\ Binary64.totalFGC invs = 350000%float
  /\ Binary64.globalRisk invs = Safe.
Proof. repeat split. Qed.

(** The sums are those of the engine: three amounts in cents whose exact sum
    is above the limit add up to the limit itself, which is not [Over]. *)
Example rounded_total_at_the_limit :
  let invs := [Binary64.pos (Some "A"%string) 300000.15%float;
               Binary64.pos (Some "B"%string) 200000.01%float;
               Binary64.pos (Some "A"%string) 499999.84%float] in
  Binary64.totalFGC invs = 1000000%float
  /\ Binary64.globalRisk invs = Warning
  /\ Binary64.totalFGC [Binary64.pos None 0.1%float;
                         Binary64.pos None 0.2%float;
                         Binary64.pos None 0.3%float]
     = 0.60000000000000009%float.
Proof. repeat split. Qed.





(** C5. Two positions whose institution names are the same once the
    surrounding white space is trimmed and the letters are upper-cased (names
    that differ only in letter case and surrounding white space) fall into one
    bucket, named by that normalised name: the aggregation of the two reports
    a single institution whose total is the binary64 sum of their gross
    projected values, and within any collection that holds them both one
    bucket carries them.  Two names that normalise differently make two
    buckets. *)
Theorem case_and_padding_variants_merge
        (trim toUpperCase : string -> string)
        (p1 p2 : Binary64.Investment) (a b : string) :
  Binary64.bank p1 = Some a ->
  Binary64.bank p2 = Some b ->
  (toUpperCase (trim a) = toUpperCase (trim b) ->
   Binary64.fgcExposure trim toUpperCase [p1; p2]
   = Some [(toUpperCase (trim a),
            PrimFloat.add
              (Binary64.orZero (Some (Binary64.futureValue p1)))
              (Binary64.orZero (Some (Binary64.futureValue p2))))]
   /\ forall invs report,
        In p1 invs -> In p2 invs ->
        Binary64.fgcExposure trim toUpperCase invs = Some report ->
        exists v,
          In (toUpperCase (trim a), v) report
          /\ Binary64.bucketSum
               (map Binary64.futureValue
                    (filter (Binary64.atBank trim toUpperCase
                                             (toUpperCase (trim a))) invs))
             = Some v
          /\ forall w, In (toUpperCase (trim b), w) report -> w = v)
  /\ (toUpperCase (trim a) <> toUpperCase (trim b) ->
      exists report,
        Binary64.fgcExposure trim toUpperCase [p1; p2] = Some report
        /\ Permutation report
             [(toUpperCase (trim a),
               Binary64.orZero (Some (Binary64.futureValue p1)));
              (toUpperCase (trim b),
               Binary64.orZero (Some (Binary64.futureValue p2)))]).
Proof.
  intros Ha Hb.
  assert (Hbanks :
            Binary64.exposureByBank trim toUpperCase [p1; p2]
            = Some (Binary64.set
                      [(toUpperCase (trim a),
                        Binary64.orZero (Some (Binary64.futureValue p1)))]
                      (toUpperCase (trim b))
                      (PrimFloat.add
                         (Binary64.orZero
                            (Binary64.get
                               [(toUpperCase (trim a),
                                 Binary64.orZero
                                   (Some (Binary64.futureValue p1)))]
                               (toUpperCase (trim b))))
                         (Binary64.orZero (Some (Binary64.futureValue p2)))))).
  { unfold Binary64.exposureByBank. cbn [Binary64.forEach].
    unfold Binary64.addExposure. rewrite Ha, Hb.
    cbn [Binary64.get Binary64.set]. change (Binary64.orZero None) with 0%float.
    rewrite Binary64Sums.add_zero_orZero. reflexivity. }
  split.
  - intros Hsame. split.
    + unfold Binary64.fgcExposure. rewrite Hbanks, <- Hsame.
      cbn [Binary64.get Binary64.set]. rewrite String.eqb_refl.
      rewrite Binary64Sums.orZero_idempotent.
      unfold Binary64.entries. cbn [filter].
      destruct (Binary64.isIndex _); reflexivity.
    + intros invs report Hin1 _ Hr.
      assert (Hk : In (toUpperCase (trim a)) (map fst report)).
      { apply (Binary64Facts.b64_report_names _ _ _ _ _ Hr).
        exists p1, a. repeat split; assumption. }
      apply in_map_iff in Hk. destruct Hk as [[k v] [Ek Hkv]].
      cbn [fst] in Ek. subst k. exists v. split; [exact Hkv|].
      split; [exact (Binary64Facts.report_bucket _ _ _ _ _ _ Hr Hkv)|].
      intros w Hw. rewrite <- Hsame in Hw.
      exact (Binary64Facts.report_single_bucket _ _ _ _ _ _ _ Hr Hw Hkv).
  - intros Hdiff. unfold Binary64.fgcExposure. rewrite Hbanks.
    cbn [Binary64.get Binary64.set].
    destruct (String.eqb_spec (toUpperCase (trim a)) (toUpperCase (trim b)))
      as [E|_]; [contradiction|].
    change (Binary64.orZero None) with 0%float.
    rewrite Binary64Sums.add_zero_orZero.
    eexists. split; [reflexivity|].
    rewrite Binary64Facts.b64_sort_perm. apply Binary64Facts.b64_entries_perm.
Qed.

Lemma case_and_padding_variants_merge_witness :
  let p1 := Binary64.pos (Some "Banco X"%string) 200000%float in
  let p2 := Binary64.pos (Some "banco x "%string) 100000%float in
  sameInstitution "Banco X" "banco x "
  /\ Str.toUpperCase (Str.trim "Banco X") = Str.toUpperCase (Str.trim "banco x ")
  /\ Binary64.fgcExposure Str.trim Str.toUpperCase [p1; p2]
     = Some [("BANCO X"%string, 300000%float)].
Proof.
  intros p1 p2.
  assert (Hs : sameInstitution "Banco X" "banco x ").
  { exists ""%string, ""%string, ""%string, " "%string,
           "Banco X"%string, "banco x"%string.
    repeat split; try reflexivity.
    repeat (constructor; [first [left; reflexivity | right; reflexivity]|]).
    constructor. }
  pose proof (sameInstitution_normalised _ _ Hs) as Hn.
  split; [exact Hs|]. split; [exact Hn|].
  exact (proj1 (proj1 (case_and_padding_variants_merge
                         Str.trim Str.toUpperCase p1 p2
                         "Banco X" "banco x " eq_refl eq_refl) Hn)).
Defined.

(** ** The dashboard totals in binary64 *)

Module Binary64Stats.

Import Binary64.

Lemma is_nan_eq x : PrimFloat.is_nan x = true -> x = nan.
Proof.
  intros H. apply FloatAxioms.Prim2SF_inj.
  unfold FloatOps.Prim2SF at 1. rewrite H. reflexivity.
Qed.

Lemma add_nan_l y : PrimFloat.add nan y = nan.
Proof.
  apply FloatAxioms.Prim2SF_inj. rewrite FloatAxioms.add_spec.
  change (FloatOps.Prim2SF nan) with SpecFloat.S754_nan. reflexivity.
Qed.

Lemma add_nan_r x : PrimFloat.add x nan = nan.
Proof.
  apply FloatAxioms.Prim2SF_inj. rewrite FloatAxioms.add_spec.
  change (FloatOps.Prim2SF nan) with SpecFloat.S754_nan.
  destruct (FloatOps.Prim2SF x); reflexivity.
Qed.

Lemma fold_from_nan {A} (f : A -> number) l :
  fold_left (fun acc x => PrimFloat.add acc (f x)) l nan = nan.
Proof.
  induction l as [|x l IH]; cbn [fold_left]; [reflexivity|].
  rewrite add_nan_l. exact IH.
Qed.

Lemma totalInvested_poisoned invs acc :
  (exists inv, In inv invs /\ PrimFloat.is_nan (amount inv) = true) ->
  fold_left (fun a curr => PrimFloat.add a (amount curr)) invs acc = nan.
Proof.
  revert acc. induction invs as [|i invs IH]; intros acc (inv & Hin & Hn).
  - destruct Hin.
  - cbn [fold_left]. destruct Hin as [<-|Hin].
    + rewrite (is_nan_eq _ Hn), add_nan_r. apply fold_from_nan.
    + apply IH. exists inv. split; assumption.
Qed.

Lemma totalFutureNet_guarded invs :
  totalFutureNet invs
  = fold_left PrimFloat.add
              (map (fun i => orZero (Some (netFutureValue i))) invs) 0%float.
Proof.
  unfold totalFutureNet. generalize 0%float.
  induction invs as [|i invs IH]; intros acc; cbn [fold_left map];
    [reflexivity|apply IH].
Qed.

End Binary64Stats.

(** X5. The invested total of the dashboard has no guard: it is [NaN] as
    soon as one amount is [NaN].  The net total is guarded by [|| 0]: it
    depends on the net projected values only through [value || 0], so a [NaN]
    net value counts exactly as 0. *)
Theorem dashboard_totals (invs : list Binary64.Investment) :
  ((exists inv, In inv invs /\ PrimFloat.is_nan (Binary64.amount inv) = true) ->
   Binary64.totalInvested invs = nan)
  /\ (forall invs',
        map (fun i => Binary64.orZero (Some (Binary64.netFutureValue i))) invs'
        = map (fun i => Binary64.orZero (Some (Binary64.netFutureValue i))) invs ->
        Binary64.totalFutureNet invs' = Binary64.totalFutureNet invs)
  /\ Binary64.totalInvested [Binary64.holding nan 0%float;
                            Binary64.holding 5%float 5%float]
     = nan
  /\ Binary64.totalFutureNet [Binary64.holding 0%float nan;
                             Binary64.holding 5%float 5%float]
     = 5%float.
Proof.
  split; [apply Binary64Stats.totalInvested_poisoned|].
  split; [|split; reflexivity].
  intros invs' H. rewrite !Binary64Stats.totalFutureNet_guarded, H.
  reflexivity.
Qed.

Lemma dashboard_totals_witness :
  let invs := [Binary64.holding 10%float 9%float;
               Binary64.holding nan 7%float] in
  (exists inv, In inv invs /\ PrimFloat.is_nan (Binary64.amount inv) = true)
  /\ Binary64.totalInvested invs = nan.
Proof.
  intros invs.
  assert (H : exists inv,
             In inv invs /\ PrimFloat.is_nan (Binary64.amount inv) = true).
  { exists (Binary64.holding nan 7%float).
    split; [right; left|]; reflexivity. }
  split; [exact H|].
  exact (proj1 (dashboard_totals invs) H).
Defined.
